(** * LLM-Insights: the retrieval pipeline of [transcript_qa.py]

    A shallow embedding of [TranscriptQASystem]: the chunker
    ([_create_chunks]), the embedding build ([_embed_chunks]), the cosine
    ranker ([_find_relevant_chunks]), the answer orchestration
    ([answer_question]) and the interactive loop of [main].

    Conventions.
    - A Python [str] is a list of characters; characters are the code points
      below 256 ([ascii]), so [len] counts characters.
    - A Python [int] is a [Z].
    - The embeddings are numpy [float32] values: IEEE binary32, here
      [spec_float] with 24 bits of precision and infinities at exponent 128.
    - A call that may raise returns a [result]; [except Exception] is a match
      on [Raise].
    - The embedding model and the HTTP endpoint are parameters of the
      functions that call them. *)

From Stdlib Require Import Ascii String.
From Stdlib Require Import List ZArith Lia Bool.
From Stdlib Require Import Permutation Sorted.
From Stdlib Require Import Floats.SpecFloat.
From Stdlib Require Import Numbers.DecimalString.
Import ListNotations.

Local Open Scope Z_scope.

(** ** Text *)

Definition text := list ascii.

Definition lit (s : string) : text := list_ascii_of_string s.

Definition len {A : Type} (l : list A) : Z := Z.of_nat (length l).

Definition code (c : ascii) : N := N_of_ascii c.

Definition space : ascii := " "%char.
Definition newline : ascii := "010"%char.
Definition colon : ascii := ":"%char.

(** [str.isspace] on the code points below 256: TAB..CR, FS..US, SPACE,
    NEL and NO-BREAK SPACE. *)
Definition is_space (c : ascii) : bool :=
  let n := code c in
  ((9 <=? n) && (n <=? 13) || (28 <=? n) && (n <=? 31)
   || (n =? 32) || (n =? 133) || (n =? 160))%N.

(** [\d] on the code points below 256: the ASCII digits. Python's [\d]
    also matches the decimal digits of other scripts, and [strip()] other
    whitespace, all above code point 255: a text here holds none of
    them. *)
Definition is_digit (c : ascii) : bool :=
  let n := code c in ((48 <=? n) && (n <=? 57))%N.

Fixpoint drop_while {A : Type} (p : A -> bool) (l : list A) : list A :=
  match l with
  | [] => []
  | x :: l' => if p x then drop_while p l' else l
  end.

Fixpoint take_while {A : Type} (p : A -> bool) (l : list A) : list A :=
  match l with
  | [] => []
  | x :: l' => if p x then x :: take_while p l' else []
  end.

Definition lstrip (s : text) : text := drop_while is_space s.
Definition rstrip (s : text) : text := rev (drop_while is_space (rev s)).

(** [s.strip()] *)
Definition strip (s : text) : text := rstrip (lstrip s).

(** Truthiness of a [str]. *)
Definition truthy (s : text) : bool :=
  match s with [] => false | _ :: _ => true end.

(** [s.split(sep)] for a one-character separator. *)
Fixpoint split (sep : ascii) (s : text) : list text :=
  match s with
  | [] => [[]]
  | c :: s' =>
      if Ascii.eqb c sep then [] :: split sep s'
      else match split sep s' with
           | [] => [[c]]
           | l :: ls => (c :: l) :: ls
           end
  end.

(** [sep.join(parts)] *)
Fixpoint join (sep : text) (parts : list text) : text :=
  match parts with
  | [] => []
  | [p] => p
  | p :: ps => p ++ sep ++ join sep ps
  end.

(** [re.match(r'^\d+:\d+$', s)]: digits, a colon, digits, and then the end
    of the string or one final newline (what [$] accepts without
    [re.MULTILINE]). *)
Definition match_timestamp (s : text) : bool :=
  match s with
  | d :: _ =>
      is_digit d &&
      match drop_while is_digit s with
      | c :: (d' :: _) as r =>
          Ascii.eqb c colon && is_digit d' &&
          match drop_while is_digit r with
          | [] => true
          | [n] => Ascii.eqb n newline
          | _ => false
          end
      | _ => false
      end
  | [] => false
  end.

(** The test of [_create_chunks] on a line. *)
Definition is_timestamp (line : text) : bool := match_timestamp (strip line).

(** ** Chunker: [_create_chunks] *)

(** One iteration of the loop over [lines]; the state is [self.chunks] and
    [current_chunk]. *)
Definition chunk_step (chunk_size : Z) (st : list text * text) (line : text)
  : list text * text :=
  let '(chunks, current_chunk) := st in
  if is_timestamp line then
    if (chunk_size <? len current_chunk) && truthy (strip current_chunk)
    then (chunks ++ [strip current_chunk], [])
    else (chunks, current_chunk)
  else
    let current_chunk := current_chunk ++ line ++ [space] in
    if chunk_size <? len current_chunk then
      if truthy (strip current_chunk)
      then (chunks ++ [strip current_chunk], [])
      else (chunks, current_chunk)
    else (chunks, current_chunk).

(** The body of the loop over [self.transcripts]. *)
Definition chunk_transcript (chunk_size : Z) (chunks : list text)
    (transcript : text) : list text :=
  let '(chunks, current_chunk) :=
    fold_left (chunk_step chunk_size) (split newline transcript) (chunks, []) in
  if truthy (strip current_chunk) then chunks ++ [strip current_chunk]
  else chunks.

(** [_create_chunks], from [self.chunks = []]. *)
Definition create_chunks (chunk_size : Z) (transcripts : list text)
  : list text :=
  fold_left (chunk_transcript chunk_size) transcripts [].

(** The chunker of one transcript: [chunk(transcript, max_size)]. *)
Definition chunk (transcript : text) (max_size : Z) : list text :=
  chunk_transcript max_size [] transcript.

(** The lines of a transcript that are not timestamps. *)
Definition content_lines (transcript : text) : list text :=
  filter (fun l => negb (is_timestamp l)) (split newline transcript).

(** What the chunker accumulates when it never flushes: every content line
    followed by the separator. *)
Definition accumulated (lines : list text) : text :=
  concat (map (fun l => l ++ [space]) lines).

(** [s.split()]: the maximal runs of characters that are not whitespace. *)
Fixpoint words (s : text) : list text :=
  match s with
  | [] => []
  | c :: s' =>
      if is_space c then words s'
      else match s' with
           | [] => [[c]]
           | d :: _ =>
               if is_space d then [c] :: words s'
               else match words s' with
                    | w :: ws => (c :: w) :: ws
                    | [] => [[c]]
                    end
           end
  end.

(** ** Exceptions *)

Record exn : Type := Exn { exn_class : text; exn_str : text }.

Inductive result (A : Type) : Type :=
| Returned (a : A)
| Raise (e : exn).
Arguments Returned {A} a.
Arguments Raise {A} e.

Definition bind {A B : Type} (c : result A) (k : A -> result B) : result B :=
  match c with
  | Returned a => k a
  | Raise e => Raise e
  end.

Notation "x <- c ;; k" := (bind c (fun x => k))
  (at level 61, c at next level, right associativity).

(** A loop that appends [f x] for every [x], left to right, and stops at the
    first exception. *)
Fixpoint for_each {A B : Type} (f : A -> result B) (l : list A)
  : result (list B) :=
  match l with
  | [] => Returned []
  | x :: l' => y <- f x ;; ys <- for_each f l' ;; Returned (y :: ys)
  end.

(** [l[i]] for [i >= 0]. *)
Definition index {A : Type} (l : list A) (i : nat) : result A :=
  match nth_error l i with
  | Some a => Returned a
  | None => Raise (Exn (lit "IndexError") (lit "index out of range"))
  end.

(** ** float32 *)

Definition prec : Z := 24.
Definition emax : Z := 128.

Definition float32 := spec_float.
Definition vector := list float32.

Definition f32_zero : float32 := S754_zero false.
Definition f32_one : float32 := S754_finite false 8388608 (-23).
Definition f32_add : float32 -> float32 -> float32 := SFadd prec emax.
Definition f32_mul : float32 -> float32 -> float32 := SFmul prec emax.
Definition f32_div : float32 -> float32 -> float32 := SFdiv prec emax.
Definition f32_sqrt : float32 -> float32 := SFsqrt prec emax.

Definition is_nan (x : float32) : bool :=
  match x with S754_nan => true | _ => false end.

Definition is_zero (x : float32) : bool :=
  match x with S754_zero _ => true | _ => false end.

(** A number: neither NaN nor an infinity. *)
Definition is_number (x : float32) : bool :=
  match x with S754_zero _ | S754_finite _ _ _ => true | _ => false end.

Definition zero_vector (v : vector) : bool := forallb is_zero v.

(** ** Ranker: [_find_relevant_chunks] *)

(** [np.dot] of two 1-D arrays: the sum of the products; arrays of
    different lengths raise [ValueError] (its message, which names the two
    shapes, is not modelled). The sum is accumulated from the left with a
    rounding at every step; numpy's BLAS kernel may add in another order
    and round differently, so the last bits of a score are those of this
    order of summation. No statement below depends on them. *)
Definition dot (a b : vector) : result float32 :=
  if Nat.eqb (length a) (length b) then
    Returned (fold_left (fun acc xy => f32_add acc (f32_mul (fst xy) (snd xy)))
                (combine a b) f32_zero)
  else Raise (Exn (lit "ValueError") (lit "shapes not aligned")).

(** [x.dot(x)], which cannot raise; summed as in [dot]. *)
Definition sqnorm (a : vector) : float32 :=
  fold_left (fun acc x => f32_add acc (f32_mul x x)) a f32_zero.

(** [np.linalg.norm] of a 1-D array: [sqrt(x.dot(x))]. *)
Definition norm (a : vector) : float32 := f32_sqrt (sqnorm a).

(** The similarity of the loop body: a numpy scalar division, which returns
    NaN or an infinity on a zero divisor (with a warning) and does not
    raise. *)
Definition similarity (q v : vector) : result float32 :=
  d <- dot q v ;;
  Returned (f32_div d (f32_mul (norm q) (norm v))).

(** The order numpy sorts floats by: [a < b], with NaN after every number. *)
Definition npy_lt (a b : float32) : bool :=
  SFltb a b || (is_nan b && negb (is_nan a)).

Section Argsort.
Context {A : Type} (lt : A -> A -> bool) (v : nat -> A).

(** The inner loop of numpy's insertion sort on an index array: [vi] moves
    left past every index whose value is greater. [before] is the sorted
    prefix read from right to left. *)
Fixpoint sift (vi : nat) (before : list nat) : list nat :=
  match before with
  | [] => [vi]
  | pk :: rest =>
      if lt (v vi) (v pk) then pk :: sift vi rest else vi :: pk :: rest
  end.

(** The outer loop, over the indices [0 .. n-1]; the result is read from
    right to left. *)
Definition insertion_argsort_rev (n : nat) : list nat :=
  fold_left (fun before vi => sift vi before) (seq 0 n) [].

(** [i] is read before [j] in the sorted indices taken from right to
    left: the value at [i] is not less, and on equal values [i] is the
    greater index. *)
Definition reads_before (i j : nat) : Prop :=
  lt (v i) (v j) = false /\ (lt (v j) (v i) = false -> (j < i)%nat).
End Argsort.

(** The score of a chunk index. *)
Definition score (similarities : list float32) (i : nat) : float32 :=
  nth i similarities f32_zero.

(** [np.argsort(similarities)]: the indices in ascending order of score.
    numpy's default [kind] is not stable and promises no order among equal
    scores; which order comes out depends on the numpy build. This
    definition fixes one order [np.argsort] may return, that of the
    insertion sort above (numpy's scalar code for short arrays). What is
    stated of the order of tied chunks is stated for every order the sort
    may return ([sorts_ascending]), not for this one. *)
Definition argsort (similarities : list float32) : list nat :=
  rev (insertion_argsort_rev npy_lt (score similarities)
         (length similarities)).

(** [l[start:]] *)
Definition slice_from {A : Type} (start : Z) (l : list A) : list A :=
  let n := len l in
  let s := if start <? 0 then Z.max (start + n) 0 else Z.min start n in
  skipn (Z.to_nat s) l.

(** [order[-top_k:][::-1]]: the last [top_k] entries, last first. *)
Definition select {A : Type} (top_k : Z) (order : list A) : list A :=
  rev (slice_from (- top_k) order).

(** [np.argsort(similarities)[-top_k:][::-1]] *)
Definition top_indices (similarities : list float32) (top_k : Z) : list nat :=
  select top_k (argsort similarities).

(** ** The system *)

Record system : Type := System {
  chunks : list text;
  chunk_embeddings : list vector
}.

(** What [response.json()] returns, as far as [answer_question] looks into
    it: an object whose fields hold a string or something else, or a value
    that is not an object. *)
Inductive field_value : Type :=
| JString (s : text)
| JNotString.

Inductive json : Type :=
| JObject (fields : list (text * field_value))
| JNotObject.

Record response : Type := Response {
  status_code : Z;
  body : result json          (* [response.json()] *)
}.

Definition text_eqb (a b : text) : bool :=
  if list_eq_dec ascii_dec a b then true else false.

Fixpoint lookup (key : text) (fields : list (text * field_value))
  : option field_value :=
  match fields with
  | [] => None
  | (k, v) :: fields' => if text_eqb k key then Some v else lookup key fields'
  end.

Definition attribute_error : exn :=
  Exn (lit "AttributeError") (lit "object has no attribute").

(** [result.get("response", "").strip()] *)
Definition get_response (j : json) : result text :=
  match j with
  | JObject fields =>
      match lookup (lit "response") fields with
      | None => Returned (strip [])
      | Some (JString s) => Returned (strip s)
      | Some JNotString => Raise attribute_error
      end
  | JNotObject => Raise attribute_error
  end.

Definition is_quote (c : ascii) : bool :=
  Ascii.eqb c "034"%char || Ascii.eqb c "039"%char.

Definition drop_last_quote (s : text) : text :=
  match rev s with
  | c :: r => if is_quote c then rev r else s
  | [] => s
  end.

(** The [re.sub] of [answer_question] on a stripped answer: a single or
    double quote is removed at the start, and one at the end. *)
Definition strip_quotes (answer : text) : text :=
  match answer with
  | c :: s => if is_quote c then drop_last_quote s else drop_last_quote answer
  | [] => []
  end.

(** [str(n)] for an [int]. *)
Definition str_of_int (n : Z) : text :=
  lit (NilZero.string_of_int (Z.to_int n)).

Definition no_information : text :=
  lit "I couldn't find any relevant information in the transcripts to answer your question.".

Definition error_prefix : text := lit "Error generating answer: ".

Definition prompt_head : text :=
  lit "You are a helpful AI assistant analyzing sales call transcripts. Based on the provided transcript excerpts, answer the question concisely and accurately. Focus only on the information present in the transcripts. Do not include quotes or extra commentary."
  ++ [newline; newline] ++ lit "Question: ".

Definition prompt_middle : text :=
  [newline; newline] ++ lit "Relevant transcript excerpts:" ++ [newline].

Definition prompt_tail : text :=
  [newline; newline]
  ++ lit "Please provide a concise answer based only on the transcript information:".

Definition make_prompt (question context : text) : text :=
  prompt_head ++ question ++ prompt_middle ++ context ++ prompt_tail.

(** [str.lower] on the code points below 256. *)
Definition lower_char (c : ascii) : ascii :=
  let n := code c in
  if ((65 <=? n) && (n <=? 90)
      || (192 <=? n) && (n <=? 222) && negb (n =? 215))%N
  then ascii_of_N (n + 32) else c.

Definition lower (s : text) : text := map lower_char s.

Definition is_quit (question : text) : bool :=
  existsb (text_eqb (lower question)) [lit "quit"; lit "exit"; lit "q"].

(** What the loop of [main] prints for one line of input. *)
Inductive event : Type :=
| Goodbye
| PleaseEnter
| Answer (answer : text)
| ErrorGenerating (e : exn)
| ErrorInitializing (e : exn).

Section Capabilities.
(** [self.embedding_model.encode]: a batch of strings to a batch of
    vectors. *)
Variable encode : list text -> result (list vector).
(** [requests.post] to the generate endpoint, as a function of the prompt;
    the rest of the payload is constant. *)
Variable post : text -> result response.

(** [__init__] after the models are loaded: [_load_transcripts] on the
    contents of the files found, [_create_chunks], [_embed_chunks]. *)
Definition init (transcripts : list text) (chunk_size : Z) : result system :=
  match transcripts with
  | [] => Raise (Exn (lit "FileNotFoundError")
                   (lit "No transcript files found"))
  | _ :: _ =>
      let chunks := create_chunks chunk_size transcripts in
      chunk_embeddings <- encode chunks ;;
      Returned (System chunks chunk_embeddings)
  end.

Definition find_relevant_chunks (self : system) (question : text) (top_k : Z)
  : result (list (text * float32)) :=
  question_embedding <- encode [question] ;;
  similarities <-
    for_each (fun chunk_embedding =>
                q <- index question_embedding 0 ;;
                similarity q chunk_embedding)
             (chunk_embeddings self) ;;
  for_each (fun idx =>
              c <- index (chunks self) idx ;;
              s <- index similarities idx ;;
              Returned (c, s))
           (top_indices similarities top_k).

(** The [try] block of [answer_question]. *)
Definition generate (prompt : text) : result text :=
  r <- post prompt ;;
  if status_code r =? 200 then
    result <- body r ;;
    answer <- get_response result ;;
    Returned (strip_quotes answer)
  else Returned (error_prefix ++ str_of_int (status_code r)).

Definition answer_question (self : system) (question : text) : result text :=
  relevant_chunks <- find_relevant_chunks self question 3 ;;
  match relevant_chunks with
  | [] => Returned no_information
  | _ :: _ =>
      let context := join [newline; newline] (map fst relevant_chunks) in
      let prompt := make_prompt question context in
      match generate prompt with
      | Returned answer => Returned answer
      | Raise e => Returned (error_prefix ++ exn_str e)
      end
  end.

(** The [while True] loop of [main] over the lines [input()] returns; when
    they run out [input()] raises [EOFError], which the outer handler
    reports. *)
Fixpoint session (qa_system : system) (inputs : list text) : list event :=
  match inputs with
  | [] => [ErrorInitializing (Exn (lit "EOFError") (lit "EOF when reading a line"))]
  | line :: inputs' =>
      let question := strip line in
      if is_quit question then [Goodbye]
      else if negb (truthy question) then PleaseEnter :: session qa_system inputs'
      else match answer_question qa_system question with
           | Returned answer => Answer answer :: session qa_system inputs'
           | Raise e => ErrorGenerating e :: session qa_system inputs'
           end
  end.
End Capabilities.

(** ** Statements about the chunker *)

Definition blank (s : text) : bool := forallb is_space s.

(** Some content line holds a character that is not whitespace. *)
Definition has_content (transcript : text) : bool :=
  existsb (fun l => negb (blank l)) (content_lines transcript).



(** The buffer carried from one line to the next is within the cap, or
    holds whitespace only. *)
Definition carried (max_size : Z) (cur : text) : Prop :=
  len cur <= max_size \/ blank cur = true.




(** ** Statements about the ranker *)

Definition zero_or_nan (x : float32) : bool := is_zero x || is_nan x.

(** A score: the similarity returned a number. *)
Definition defined_score (r : result float32) : Prop :=
  exists s, r = Returned s /\ is_number s = true.

(** A key whose lexicographic order is [npy_lt]: the class of the value
    (negative infinity, negative, zero, positive, positive infinity, NaN),
    then exponent and mantissa. *)
Definition sort_key (x : float32) : Z * Z * Z :=
  match x with
  | S754_nan => (3, 0, 0)
  | S754_infinity false => (2, 0, 0)
  | S754_finite false m e => (1, e, Zpos m)
  | S754_zero _ => (0, 0, 0)
  | S754_finite true m e => (-1, - e, - Zpos m)
  | S754_infinity true => (-2, 0, 0)
  end.

Definition key_lt (a b : Z * Z * Z) : Prop :=
  fst (fst a) < fst (fst b) \/
  fst (fst a) = fst (fst b) /\
  (snd (fst a) < snd (fst b) \/
   snd (fst a) = snd (fst b) /\ snd a < snd b).

(** The number of leading indices [l[start:]] drops. *)
Definition slice_start {A : Type} (start : Z) (l : list A) : nat :=
  Z.to_nat (if start <? 0 then Z.max (start + len l) 0
            else Z.min start (len l)).

Definition higher (similarities : list float32) (i j : nat) : Prop :=
  npy_lt (score similarities j) (score similarities i) = true.

Definition tied (similarities : list float32) (i j : nat) : Prop :=
  npy_lt (score similarities i) (score similarities j) = false /\
  npy_lt (score similarities j) (score similarities i) = false.

(** The score at [i] is not below the score at [j]. *)
Definition not_lower (similarities : list float32) (i j : nat) : Prop :=
  npy_lt (score similarities i) (score similarities j) = false.

(** Descending score, ties by ascending index: the order of the claim. *)
Definition ties_low_index_first (similarities : list float32) (i j : nat)
  : Prop :=
  higher similarities i j \/ tied similarities i j /\ (i < j)%nat.

(** What [np.argsort] promises of the order it returns: a permutation of
    the indices that puts the scores in ascending order, NaN last. It
    promises nothing on the order of equal scores. *)
Definition sorts_ascending (similarities : list float32) (order : list nat)
  : Prop :=
  Permutation order (seq 0 (length similarities)) /\
  StronglySorted
    (fun i j => npy_lt (score similarities j) (score similarities i) = false)
    order.

(** ** Capabilities for the concrete runs *)

(** An embedder that maps every string to the one-dimensional vector
    [(1.0)]. *)
Definition unit_encode (batch : list text) : result (list vector) :=
  Returned (map (fun _ => [f32_one]) batch).

(** An embedder that is down. *)
Definition failing_encode (batch : list text) : result (list vector) :=
  Raise (Exn (lit "RuntimeError") (lit "embedding model unavailable")).

(** An endpoint that answers every prompt. *)
Definition ok_post (prompt : text) : result response :=
  Returned (Response 200
              (Returned (JObject [(lit "response", JString (lit "$40"))]))).

(** An endpoint that refuses the connection. *)
Definition down_post (prompt : text) : result response :=
  Raise (Exn (lit "ConnectionError") (lit "connection refused")).

(** An endpoint that answers with status 500. *)
Definition broken_post (prompt : text) : result response :=
  Returned (Response 500 (Raise (Exn (lit "JSONDecodeError") (lit "no body")))).

Definition two_chunks : system :=
  System [lit "weekly mowing at $40"; lit "bagging for $10 extra"]
         [[f32_one]; [f32_one]].

(** ** Statements about the orchestration *)

(** How a synthesis call failed, as [answer_question] words it: the text
    of the exception raised by the call or while the body is read, or the
    status code when it is not 200. [None] when the call succeeded. *)
Definition synthesis_failure (r : result response) : option text :=
  match r with
  | Raise e => Some (exn_str e)
  | Returned r =>
      if status_code r =? 200 then
        match body r with
        | Raise e => Some (exn_str e)
        | Returned j =>
            match get_response j with
            | Raise e => Some (exn_str e)
            | Returned _ => None
            end
        end
      else Some (str_of_int (status_code r))
  end.

(** ** Statements about the rest of the code *)

(** A text of decimal digits. *)
Definition digits (s : text) : bool := forallb is_digit s.

(** The chunk a run of content lines makes: the lines with their
    separator, trimmed. *)
Definition run_chunk (run : list text) : text := strip (accumulated run).

(** The exception of [np.dot] on arrays of different lengths: its class.
    The message of the real exception names the two shapes; it is not
    modelled. *)
Definition value_error : exn :=
  Exn (lit "ValueError") (lit "shapes not aligned").

(** The characters of some chunks, with one separator for each chunk. *)
Definition separated_length (cs : list text) : Z :=
  fold_right (fun c acc => len c + 1 + acc) 0 cs.

(** The exception of [input()] at the end of the input. *)
Definition eof_error : exn :=
  Exn (lit "EOFError") (lit "EOF when reading a line").

(** No line of the input is a quit word. *)
Definition no_quit (inputs : list text) : bool :=
  forallb (fun line => negb (is_quit (strip line))) inputs.

(** What the loop prints for a line it goes on after. *)
Definition goes_on (ev : event) : Prop :=
  match ev with
  | PleaseEnter | Answer _ | ErrorGenerating _ => True
  | Goodbye | ErrorInitializing _ => False
  end.

(** * Text lemmas *)

(** Splits a hypothesis [a && b = true]. *)
Ltac split_andb H H1 H2 := apply andb_prop in H; destruct H as [H1 H2].

Section DropWhile.
Context {A : Type} (p : A -> bool).

Lemma take_drop_while (l : list A) : take_while p l ++ drop_while p l = l.
Proof.
  induction l as [|x l IH]; simpl; [reflexivity|].
  destruct (p x); simpl; [now rewrite IH | reflexivity].
Qed.

Lemma take_while_forallb (l : list A) : forallb p (take_while p l) = true.
Proof.
  induction l as [|x l IH]; simpl; [reflexivity|].
  destruct (p x) eqn:E; simpl; [now rewrite E | reflexivity].
Qed.

Lemma drop_while_length (l : list A) :
  (length (drop_while p l) <= length l)%nat.
Proof.
  induction l as [|x l IH]; simpl; [lia|]. destruct (p x); simpl; lia.
Qed.

Lemma drop_while_nil (l : list A) :
  drop_while p l = [] <-> forallb p l = true.
Proof.
  induction l as [|x l IH]; simpl; [tauto|].
  destruct (p x); simpl; [exact IH | split; discriminate].
Qed.

Lemma drop_while_idem (l : list A) :
  drop_while p (drop_while p l) = drop_while p l.
Proof.
  induction l as [|x l IH]; simpl; [reflexivity|].
  destruct (p x) eqn:E; [exact IH | simpl; now rewrite E].
Qed.

Lemma drop_while_app (a b : list A) :
  drop_while p (a ++ b) =
  if forallb p a then drop_while p b else drop_while p a ++ b.
Proof.
  induction a as [|x a IH]; simpl; [reflexivity|].
  destruct (p x); simpl; [exact IH | reflexivity].
Qed.
End DropWhile.

Lemma forallb_rev_eq {A : Type} (p : A -> bool) (l : list A) :
  forallb p (rev l) = forallb p l.
Proof.
  induction l as [|x l IH]; simpl; [reflexivity|].
  rewrite forallb_app, IH. simpl. rewrite andb_true_r. apply andb_comm.
Qed.

Lemma existsb_negb {A : Type} (p : A -> bool) (l : list A) :
  existsb (fun x => negb (p x)) l = negb (forallb p l).
Proof.
  induction l as [|x l IH]; simpl; [reflexivity|].
  now rewrite IH, negb_andb.
Qed.

Lemma len_app {A : Type} (a b : list A) : len (a ++ b) = len a + len b.
Proof. unfold len. rewrite length_app. lia. Qed.

Lemma len_cons {A : Type} (x : A) (l : list A) : len (x :: l) = 1 + len l.
Proof. unfold len. cbn [length]. lia. Qed.

Lemma len_nil {A : Type} : len (@nil A) = 0.
Proof. reflexivity. Qed.

Lemma len_nonneg {A : Type} (a : list A) : 0 <= len a.
Proof. unfold len. lia. Qed.

Lemma strip_nil (s : text) : strip s = [] <-> blank s = true.
Proof.
  unfold strip, rstrip, lstrip, blank. split.
  - intros H.
    assert (H1 : drop_while is_space (rev (drop_while is_space s)) = []).
    { rewrite <- (rev_involutive (drop_while _ (rev _))). rewrite H. reflexivity. }
    apply drop_while_nil in H1. rewrite forallb_rev_eq in H1.
    apply drop_while_nil. rewrite <- drop_while_idem.
    now apply drop_while_nil.
  - intros H. apply drop_while_nil in H. rewrite H. reflexivity.
Qed.

Lemma truthy_strip (s : text) : truthy (strip s) = negb (blank s).
Proof.
  destruct (blank s) eqn:E; simpl.
  - apply strip_nil in E. now rewrite E.
  - destruct (strip s) eqn:S; [|reflexivity].
    apply strip_nil in S. congruence.
Qed.

Lemma strip_length (s : text) : len (strip s) <= len s.
Proof.
  unfold strip, rstrip, lstrip, len. rewrite length_rev.
  pose proof (drop_while_length is_space (rev (drop_while is_space s))) as H1.
  pose proof (drop_while_length is_space s) as H2.
  rewrite length_rev in H1. lia.
Qed.

Lemma strip_app_space (s : text) (c : ascii) :
  is_space c = true -> strip (s ++ [c]) = strip s.
Proof.
  intros Hc. unfold strip, lstrip. rewrite drop_while_app.
  destruct (forallb is_space s) eqn:E.
  - simpl. rewrite Hc. apply drop_while_nil in E. rewrite E. reflexivity.
  - unfold rstrip. rewrite rev_app_distr. simpl. now rewrite Hc.
Qed.

Lemma strip_blank_app (a b : text) :
  blank a = true -> strip (a ++ b) = strip b.
Proof.
  intros H. unfold strip, lstrip. rewrite drop_while_app.
  unfold blank in H. now rewrite H.
Qed.

Lemma blank_app (a b : text) : blank (a ++ b) = blank a && blank b.
Proof. apply forallb_app. Qed.

(** * The chunker *)

Lemma split_not_nil (sep : ascii) (s : text) : split sep s <> [].
Proof.
  destruct s as [|c s]; simpl; [discriminate|].
  destruct (Ascii.eqb c sep); [discriminate|].
  destruct (split sep s); discriminate.
Qed.

Lemma accumulated_cons (l : text) (ls : list text) :
  accumulated (l :: ls) = (l ++ [space]) ++ accumulated ls.
Proof. reflexivity. Qed.

Lemma accumulated_app (a b : list text) :
  accumulated (a ++ b) = accumulated a ++ accumulated b.
Proof. unfold accumulated. now rewrite map_app, concat_app. Qed.

Lemma accumulated_split_length (sep : ascii) (t : text) :
  len (accumulated (split sep t)) = len t + 1.
Proof.
  induction t as [|c t IH]; [reflexivity|].
  simpl split. destruct (Ascii.eqb c sep).
  - rewrite accumulated_cons, len_app, IH. cbn [app].
    rewrite !len_cons, len_nil. lia.
  - pose proof (split_not_nil sep t) as Hne.
    destruct (split sep t) as [|l ls]; [congruence|].
    rewrite accumulated_cons in *. rewrite !len_app in *.
    rewrite !len_cons in *. lia.
Qed.

Lemma accumulated_filter_length (f : text -> bool) (ls : list text) :
  len (accumulated (filter f ls)) <= len (accumulated ls).
Proof.
  induction ls as [|l ls IH]; cbn [filter]; [lia|].
  pose proof (len_nonneg (l ++ [space])).
  destruct (f l); rewrite ?accumulated_cons; rewrite 1?len_app;
    try rewrite (len_app _ (accumulated ls)); lia.
Qed.

Lemma blank_accumulated (ls : list text) :
  blank (accumulated ls) = forallb blank ls.
Proof.
  induction ls as [|l ls IH]; [reflexivity|].
  rewrite accumulated_cons, !blank_app, IH. simpl.
  now rewrite andb_true_r.
Qed.

(** While the buffer stays within [chunk_size] no step flushes. *)
Lemma fold_no_flush (chunk_size : Z) (ls : list text) :
  forall chunks cur,
    len cur + len (accumulated (filter (fun l => negb (is_timestamp l)) ls))
      <= chunk_size ->
    fold_left (chunk_step chunk_size) ls (chunks, cur) =
    (chunks, cur ++ accumulated (filter (fun l => negb (is_timestamp l)) ls)).
Proof.
  induction ls as [|l ls IH]; intros chunks cur H; simpl.
  - now rewrite app_nil_r.
  - simpl in H. destruct (is_timestamp l) eqn:T; simpl in *.
    + replace (chunk_size <? len cur) with false
        by (symmetry; apply Z.ltb_ge;
            pose proof (len_nonneg (accumulated
              (filter (fun l => negb (is_timestamp l)) ls))); lia).
      simpl. now apply IH.
    + rewrite accumulated_cons, !len_app in H.
      replace (chunk_size <? len (cur ++ l ++ [space])) with false.
      * rewrite IH.
        -- rewrite accumulated_cons. now rewrite <- !app_assoc.
        -- rewrite !len_app. lia.
      * symmetry. apply Z.ltb_ge. rewrite !len_app.
        pose proof (len_nonneg (accumulated
              (filter (fun l => negb (is_timestamp l)) ls))). lia.
Qed.

(** C6, as amended: a transcript shorter than [max_size] produces at most
    one chunk. It produces exactly one, the trimmed text of its content
    lines, when a line that is not a timestamp holds a character that is
    not whitespace, and no chunk when there is no such line. *)
Theorem short_transcript_chunks (transcript : text) (max_size : Z) :
  len transcript < max_size ->
  (has_content transcript = true ->
   chunk transcript max_size
   = [strip (accumulated (content_lines transcript))]) /\
  (has_content transcript = false -> chunk transcript max_size = []).
Proof.
  intros Hlen.
  assert (Hfold : fold_left (chunk_step max_size) (split newline transcript)
                    ([], [])
                  = ([], accumulated (content_lines transcript))).
  { rewrite fold_no_flush; [reflexivity|].
    pose proof (accumulated_filter_length
                  (fun l => negb (is_timestamp l)) (split newline transcript)).
    pose proof (accumulated_split_length newline transcript).
    rewrite len_nil. lia. }
  unfold chunk, chunk_transcript. rewrite Hfold.
  rewrite truthy_strip, blank_accumulated.
  unfold has_content.
  rewrite existsb_negb.
  split; intros H; rewrite H; reflexivity.
Qed.

Lemma short_transcript_chunks_witness :
  chunk (lit "0:02
Hi, we offer weekly mowing at $40.
0:05
We also do bagging for $10 extra.") 1000
  = [lit "Hi, we offer weekly mowing at $40. We also do bagging for $10 extra."].
Proof.
  apply (short_transcript_chunks
           (lit "0:02
Hi, we offer weekly mowing at $40.
0:05
We also do bagging for $10 extra.") 1000).
  - vm_compute. reflexivity.
  - vm_compute. reflexivity.
Defined.

(** C6 as stated fails: a transcript that holds only a timestamp is
    shorter than [max_size] and produces no chunk. *)
Lemma short_transcript_no_chunk :
  len (lit "0:02") < 500 /\ length (chunk (lit "0:02") 500) <> 1%nat.
Proof. split; [reflexivity | vm_compute; discriminate]. Qed.

Lemma chunk_step_append (chunk_size : Z) (chunks : list text) (cur l : text) :
  chunk_step chunk_size (chunks, cur) l
  = (chunks ++ fst (chunk_step chunk_size ([], cur) l),
     snd (chunk_step chunk_size ([], cur) l)).
Proof.
  unfold chunk_step.
  destruct (is_timestamp l).
  - destruct ((chunk_size <? len cur) && truthy (strip cur)); cbn [fst snd app];
      now rewrite ?app_nil_r.
  - destruct (chunk_size <? len (cur ++ l ++ [space]));
      [destruct (truthy (strip (cur ++ l ++ [space])))|]; cbn [fst snd app];
      now rewrite ?app_nil_r.
Qed.

Lemma chunk_fold_append (chunk_size : Z) (ls : list text) :
  forall chunks cur,
    fold_left (chunk_step chunk_size) ls (chunks, cur)
    = (chunks ++ fst (fold_left (chunk_step chunk_size) ls ([], cur)),
       snd (fold_left (chunk_step chunk_size) ls ([], cur))).
Proof.
  induction ls as [|l ls IH]; intros chunks cur; cbn [fold_left].
  - cbn [fst snd]. now rewrite app_nil_r.
  - rewrite chunk_step_append.
    destruct (chunk_step chunk_size ([], cur) l) as [c1 cur1]. cbn [fst snd].
    rewrite (IH (chunks ++ c1)), (IH c1). cbn [fst snd].
    now rewrite app_assoc.
Qed.









(** ** Words *)

Lemma words_nonspace (c : ascii) (s : text) :
  is_space c = false -> words (c :: s) <> [].
Proof.
  intros H. cbn [words]. rewrite H. destruct s as [|d s]; [discriminate|].
  destruct (is_space d); [discriminate|].
  destruct (words (d :: s)); discriminate.
Qed.

(** A whitespace character between two texts separates their words. *)
Lemma words_app_sep (a b : text) (c : ascii) :
  is_space c = true -> words (a ++ c :: b) = words a ++ words b.
Proof.
  intros Hc. induction a as [|x a IH].
  - cbn [app words]. now rewrite Hc.
  - change ((x :: a) ++ c :: b) with (x :: (a ++ c :: b)).
    cbn [words]. destruct (is_space x) eqn:X; [exact IH|].
    destruct a as [|d a].
    + cbn [app]. rewrite Hc. cbn [words]. rewrite Hc. reflexivity.
    + change ((d :: a) ++ c :: b) with (d :: (a ++ c :: b)) in *.
      destruct (is_space d) eqn:D; rewrite ?D, IH.
      * reflexivity.
      * pose proof (words_nonspace d a D) as N.
        destruct (words (d :: a)); [congruence | reflexivity].
Qed.

Lemma words_blank (a : text) : blank a = true -> words a = [].
Proof.
  induction a as [|x a IH]; [reflexivity|]. cbn [blank forallb words].
  intros H. split_andb H H1 H2.
  rewrite H1. now apply IH.
Qed.

Lemma words_blank_l (a b : text) :
  blank a = true -> words (a ++ b) = words b.
Proof.
  induction a as [|x a IH]; [reflexivity|]. cbn [blank forallb app words].
  intros H. split_andb H H1 H2.
  rewrite H1. now apply IH.
Qed.

Lemma words_blank_r (a b : text) :
  blank b = true -> words (a ++ b) = words a.
Proof.
  destruct b as [|c b]; [now rewrite app_nil_r|].
  cbn [blank forallb]. intros H. split_andb H H1 H2.
  rewrite words_app_sep by exact H1.
  rewrite (words_blank b H2). apply app_nil_r.
Qed.

Lemma words_lstrip (s : text) : words (lstrip s) = words s.
Proof.
  rewrite <- (take_drop_while is_space s) at 2.
  symmetry. apply words_blank_l. apply take_while_forallb.
Qed.

Lemma words_rstrip (s : text) : words (rstrip s) = words s.
Proof.
  unfold rstrip.
  rewrite <- (rev_involutive s) at 2.
  rewrite <- (take_drop_while is_space (rev s)) at 2.
  rewrite rev_app_distr. symmetry. apply words_blank_r.
  unfold blank. rewrite forallb_rev_eq. apply take_while_forallb.
Qed.

Lemma words_strip (s : text) : words (strip s) = words s.
Proof. unfold strip. now rewrite words_rstrip, words_lstrip. Qed.

Lemma words_join (ls : list text) :
  words (join [space] ls) = concat (map words ls).
Proof.
  induction ls as [|l ls IH]; [reflexivity|].
  destruct ls as [|l' ls].
  - cbn. now rewrite app_nil_r.
  - change (join [space] (l :: l' :: ls))
      with (l ++ space :: join [space] (l' :: ls)).
    rewrite words_app_sep by reflexivity. now rewrite IH.
Qed.

Lemma words_accumulated (ls : list text) :
  words (accumulated ls) = concat (map words ls).
Proof.
  induction ls as [|l ls IH]; [reflexivity|].
  rewrite accumulated_cons, <- app_assoc. cbn [app map concat].
  rewrite words_app_sep by reflexivity. now rewrite IH.
Qed.

(** A step keeps the words of the chunks and of the buffer, and adds those
    of a content line; the buffer stays a run of lines with their
    separator. *)
Lemma words_step (chunk_size : Z) (chunks pending : list text) (l : text) :
  exists chunks' pending',
    chunk_step chunk_size (chunks, accumulated pending) l
    = (chunks', accumulated pending') /\
    concat (map words chunks') ++ concat (map words pending')
    = concat (map words chunks) ++ concat (map words pending)
      ++ concat (map words (filter (fun l => negb (is_timestamp l)) [l])).
Proof.
  assert (Hflush : forall buf : list text,
    concat (map words (chunks ++ [strip (accumulated buf)]))
      ++ concat (map words [])
    = concat (map words chunks) ++ concat (map words buf)).
  { intros buf. rewrite map_app, concat_app. cbn [map concat].
    now rewrite !app_nil_r, words_strip, words_accumulated. }
  assert (Hw : concat (map words (pending ++ [l]))
               = concat (map words pending) ++ words l ++ []).
  { rewrite map_app, concat_app. reflexivity. }
  unfold chunk_step. cbn [filter].
  destruct (is_timestamp l) eqn:T; cbn [negb map concat].
  - destruct ((chunk_size <? len (accumulated pending))
              && truthy (strip (accumulated pending))).
    + exists (chunks ++ [strip (accumulated pending)]), [].
      split; [reflexivity|]. now rewrite Hflush, app_nil_r.
    + exists chunks, pending. split; [reflexivity|]. now rewrite app_nil_r.
  - assert (Hbuf : accumulated pending ++ l ++ [space]
                   = accumulated (pending ++ [l])).
    { rewrite accumulated_app. cbn. now rewrite app_nil_r. }
    rewrite Hbuf.
    destruct (chunk_size <? len (accumulated (pending ++ [l])));
      [destruct (truthy (strip (accumulated (pending ++ [l]))))|].
    + exists (chunks ++ [strip (accumulated (pending ++ [l]))]), [].
      split; [reflexivity|]. now rewrite Hflush, Hw.
    + exists chunks, (pending ++ [l]). split; [reflexivity|]. now rewrite Hw.
    + exists chunks, (pending ++ [l]). split; [reflexivity|]. now rewrite Hw.
Qed.

Lemma words_fold (chunk_size : Z) (ls : list text) :
  forall chunks pending,
  exists chunks' pending',
    fold_left (chunk_step chunk_size) ls (chunks, accumulated pending)
    = (chunks', accumulated pending') /\
    concat (map words chunks') ++ concat (map words pending')
    = concat (map words chunks) ++ concat (map words pending)
      ++ concat (map words (filter (fun l => negb (is_timestamp l)) ls)).
Proof.
  induction ls as [|l ls IH]; intros chunks pending.
  - exists chunks, pending. split; [reflexivity|]. cbn. now rewrite app_nil_r.
  - cbn [fold_left].
    destruct (words_step chunk_size chunks pending l) as (c1 & p1 & E1 & W1).
    rewrite E1. destruct (IH c1 p1) as (c2 & p2 & E2 & W2).
    exists c2, p2. split; [exact E2|]. rewrite W2, app_assoc, W1.
    change (l :: ls) with ([l] ++ ls).
    rewrite filter_app, map_app, concat_app. now rewrite <- !app_assoc.
Qed.

(** C4, as amended: the chunks, joined with the chunker's separator, hold
    the same words in the same order as the lines of the transcript that
    are not timestamps: no character other than whitespace is lost,
    duplicated or moved, and no word is split or merged. Whitespace at the
    ends of a chunk is trimmed away. *)
Theorem chunks_preserve_words (transcript : text) (max_size : Z) :
  words (join [space] (chunk transcript max_size))
  = words (join [space] (content_lines transcript)).
Proof.
  rewrite !words_join. unfold chunk, chunk_transcript, content_lines.
  destruct (words_fold max_size (split newline transcript) [] [])
    as (chunks & p' & E1 & E2).
  set (st := fold_left _ _ _).
  assert (Est : st = (chunks, accumulated p')) by exact E1.
  clearbody st. subst st.
  cbn [map concat app] in E2. rewrite <- E2.
  rewrite truthy_strip.
  destruct (blank (accumulated p')) eqn:B; cbn [negb].
  - rewrite <- (words_accumulated p'), (words_blank _ B). now rewrite app_nil_r.
  - rewrite map_app, concat_app. cbn [map concat].
    now rewrite app_nil_r, words_strip, words_accumulated.
Qed.

(** C4 as stated fails: the chunks of two lines around an empty line,
    joined with the separator, are not the content lines joined with it,
    nor the accumulated lines, trimmed or not. The whitespace between the
    two chunks is lost. *)
Lemma chunks_drop_whitespace :
  let t := lit "ab

cd" in
  join [space] (chunk t 2) = lit "ab cd" /\
  join [space] (content_lines t) = lit "ab  cd" /\
  join [space] (chunk t 2) <> join [space] (content_lines t) /\
  join [space] (chunk t 2) <> accumulated (content_lines t) /\
  join [space] (chunk t 2) <> strip (accumulated (content_lines t)).
Proof. vm_compute. repeat split; discriminate. Qed.

(** * The ranker *)

(** ** Similarity on a zero vector *)

Lemma mul_zero_l (x y : float32) :
  is_zero x = true -> zero_or_nan (f32_mul x y) = true.
Proof. destruct x; try discriminate. intros _. destruct y; reflexivity. Qed.

Lemma mul_zero_r (x y : float32) :
  is_zero y = true -> zero_or_nan (f32_mul x y) = true.
Proof. destruct y; try discriminate. intros _. destruct x; reflexivity. Qed.

Lemma mul_zero_zero (x y : float32) :
  is_zero x = true -> is_zero y = true -> is_zero (f32_mul x y) = true.
Proof. destruct x; try discriminate. destruct y; try discriminate. reflexivity. Qed.

Lemma add_zero_zero (x y : float32) :
  is_zero x = true -> is_zero y = true -> is_zero (f32_add x y) = true.
Proof.
  destruct x as [[]| | |]; try discriminate;
    destruct y as [[]| | |]; try discriminate; reflexivity.
Qed.

Lemma add_zero_or_nan (x y : float32) :
  zero_or_nan x = true -> zero_or_nan y = true ->
  zero_or_nan (f32_add x y) = true.
Proof.
  destruct x as [[]| | |]; try discriminate;
    destruct y as [[]| | |]; try discriminate; reflexivity.
Qed.

Lemma div_zero_or_nan (x y : float32) :
  zero_or_nan x = true -> zero_or_nan y = true -> f32_div x y = S754_nan.
Proof.
  destruct x; try discriminate; destruct y; try discriminate; reflexivity.
Qed.

Lemma sqrt_zero (x : float32) : is_zero x = true -> is_zero (f32_sqrt x) = true.
Proof. destruct x; try discriminate. reflexivity. Qed.

Lemma dot_fold_zero_l (q : vector) :
  zero_vector q = true ->
  forall v acc,
    zero_or_nan acc = true ->
    zero_or_nan (fold_left (fun acc xy => f32_add acc (f32_mul (fst xy) (snd xy)))
                   (combine q v) acc) = true.
Proof.
  induction q as [|x q IH]; intros Hq v acc Ha; [exact Ha|].
  cbn [zero_vector forallb] in Hq. split_andb Hq Hx Hq.
  destruct v as [|y v]; [exact Ha|]. cbn [combine fold_left fst snd].
  apply IH; [exact Hq|]. apply add_zero_or_nan; [exact Ha|].
  now apply mul_zero_l.
Qed.

Lemma dot_fold_zero_r (v : vector) :
  zero_vector v = true ->
  forall q acc,
    zero_or_nan acc = true ->
    zero_or_nan (fold_left (fun acc xy => f32_add acc (f32_mul (fst xy) (snd xy)))
                   (combine q v) acc) = true.
Proof.
  induction v as [|y v IH]; intros Hv q acc Ha.
  - destruct q; exact Ha.
  - cbn [zero_vector forallb] in Hv. split_andb Hv Hy Hv.
    destruct q as [|x q]; [exact Ha|]. cbn [combine fold_left fst snd].
    apply IH; [exact Hv|]. apply add_zero_or_nan; [exact Ha|].
    now apply mul_zero_r.
Qed.

Lemma sqnorm_fold_zero (v : vector) :
  zero_vector v = true ->
  forall acc,
    is_zero acc = true ->
    is_zero (fold_left (fun acc x => f32_add acc (f32_mul x x)) v acc) = true.
Proof.
  induction v as [|x v IH]; intros Hv acc Ha; [exact Ha|].
  cbn [zero_vector forallb] in Hv. split_andb Hv Hx Hv.
  cbn [fold_left]. apply IH; [exact Hv|].
  apply add_zero_zero; [exact Ha|]. now apply mul_zero_zero.
Qed.

Lemma norm_zero (v : vector) : zero_vector v = true -> is_zero (norm v) = true.
Proof.
  intros H. unfold norm, sqnorm. apply sqrt_zero.
  now apply sqnorm_fold_zero.
Qed.

(** C2, as amended: when the query vector or the chunk vector is the zero
    vector (and both have the same dimension) the similarity computation
    does not raise; it defines no fallback score: the division of zero by
    zero goes through and the result is NaN. *)
Theorem similarity_zero_vector (q v : vector) :
  length q = length v ->
  zero_vector q = true \/ zero_vector v = true ->
  similarity q v = Returned S754_nan.
Proof.
  intros Hlen Hz. unfold similarity, dot. rewrite Hlen, Nat.eqb_refl.
  cbn [bind]. f_equal. apply div_zero_or_nan.
  - destruct Hz as [H|H].
    + now apply dot_fold_zero_l.
    + now apply dot_fold_zero_r.
  - destruct Hz as [H|H].
    + apply mul_zero_l. now apply norm_zero.
    + apply mul_zero_r. now apply norm_zero.
Qed.

Lemma similarity_zero_vector_witness :
  similarity [f32_zero; f32_zero] [f32_one; f32_one] = Returned S754_nan.
Proof.
  apply (similarity_zero_vector [f32_zero; f32_zero] [f32_one; f32_one]).
  - reflexivity.
  - left. reflexivity.
Defined.

(** C2 as stated fails: the similarity of a zero chunk vector is NaN, which
    is not a score. *)
Lemma zero_vector_no_score :
  zero_vector [f32_zero] = true /\
  ~ defined_score (similarity [f32_one] [f32_zero]).
Proof.
  split; [reflexivity|]. intros (s & E & N).
  vm_compute in E. injection E as <-. discriminate.
Qed.

(** ** The order of numpy's sort *)

Lemma npy_lt_key (a b : float32) :
  npy_lt a b = true <-> key_lt (sort_key a) (sort_key b).
Proof.
  unfold npy_lt, SFltb, key_lt.
  destruct a as [[]|[]| |[] ma ea]; destruct b as [[]|[]| |[] mb eb];
    cbn [SFcompare sort_key is_nan negb andb orb fst snd];
    try (split; [intros; lia | intros H; try reflexivity; exfalso; lia]);
    try (split; [discriminate | intros; exfalso; lia]).
  - change (Pos.compare_cont Eq ma mb) with (Pos.compare ma mb).
    destruct (Z.compare_spec ea eb) as [E|E|E];
      [destruct (Pos.compare_spec ma mb) as [M|M|M]| |]; cbn [CompOpp];
      (split; [try discriminate; intros; lia
              | intros H; try reflexivity; exfalso; lia]).
  - change (Pos.compare_cont Eq ma mb) with (Pos.compare ma mb).
    destruct (Z.compare_spec ea eb) as [E|E|E];
      [destruct (Pos.compare_spec ma mb) as [M|M|M]| |];
      (split; [try discriminate; intros; lia
              | intros H; try reflexivity; exfalso; lia]).
Qed.

Lemma npy_lt_asym (a b : float32) : npy_lt a b = true -> npy_lt b a = false.
Proof.
  intros H. apply npy_lt_key in H.
  destruct (npy_lt b a) eqn:E; [|reflexivity].
  apply npy_lt_key in E. unfold key_lt in *. lia.
Qed.

Lemma npy_lt_cotrans (a b c : float32) :
  npy_lt a c = true -> npy_lt a b = true \/ npy_lt b c = true.
Proof.
  intros H. apply npy_lt_key in H.
  assert (K : key_lt (sort_key a) (sort_key b)
              \/ key_lt (sort_key b) (sort_key c))
    by (unfold key_lt in *; lia).
  destruct K as [K|K]; [left|right]; now apply npy_lt_key.
Qed.

(** ** The insertion sort *)

Section ArgsortFacts.
Context {A : Type} (lt : A -> A -> bool) (v : nat -> A).

Lemma sift_perm (vi : nat) (before : list nat) :
  Permutation (sift lt v vi before) (vi :: before).
Proof.
  induction before as [|pk rest IH]; cbn [sift]; [reflexivity|].
  destruct (lt (v vi) (v pk)); [|reflexivity].
  rewrite IH. apply perm_swap.
Qed.

Lemma sift_fold_perm (l acc : list nat) :
  Permutation (fold_left (fun before vi => sift lt v vi before) l acc)
              (l ++ acc).
Proof.
  revert acc. induction l as [|x l IH]; intros acc; cbn [fold_left app];
    [reflexivity|].
  rewrite IH, sift_perm. symmetry. apply Permutation_middle.
Qed.

Lemma insertion_argsort_rev_perm (n : nat) :
  Permutation (insertion_argsort_rev lt v n) (seq 0 n).
Proof.
  unfold insertion_argsort_rev. rewrite sift_fold_perm. now rewrite app_nil_r.
Qed.

Hypothesis lt_asym : forall a b, lt a b = true -> lt b a = false.
Hypothesis lt_cotrans :
  forall a b c, lt a c = true -> lt a b = true \/ lt b c = true.

Lemma sift_sorted (vi : nat) (before : list nat) :
  Forall (fun i => (i < vi)%nat) before ->
  StronglySorted (reads_before lt v) before ->
  StronglySorted (reads_before lt v) (sift lt v vi before).
Proof.
  induction before as [|pk rest IH]; intros Hlt Hs; cbn [sift].
  - constructor; constructor.
  - inversion Hlt as [|? ? Hpk Hrest]; subst.
    inversion Hs as [|? ? Hs' Hall]; subst.
    destruct (lt (v vi) (v pk)) eqn:E.
    + constructor; [now apply IH|].
      apply (Permutation_Forall (Permutation_sym (sift_perm vi rest))).
      constructor; [|exact Hall].
      split; [now apply lt_asym | intros C; congruence].
    + constructor; [exact Hs|].
      constructor; [split; [exact E | intros _; exact Hpk]|].
      rewrite Forall_forall in *. intros x Hx.
      destruct (Hall x Hx) as [H1 _]. split; [|intros _; now apply Hrest].
      destruct (lt (v vi) (v x)) eqn:F; [|reflexivity].
      destruct (lt_cotrans _ (v pk) _ F); congruence.
Qed.

Lemma sift_fold_sorted (k : nat) :
  forall s acc,
    Forall (fun i => (i < s)%nat) acc ->
    StronglySorted (reads_before lt v) acc ->
    StronglySorted (reads_before lt v)
      (fold_left (fun before vi => sift lt v vi before) (seq s k) acc).
Proof.
  induction k as [|k IH]; intros s acc Hlt Hs; cbn [seq fold_left];
    [exact Hs|].
  apply IH.
  - apply (Permutation_Forall (Permutation_sym (sift_perm s acc))).
    constructor; [lia|]. eapply Forall_impl; [|exact Hlt].
    cbn. intros; lia.
  - now apply sift_sorted.
Qed.

Lemma insertion_argsort_rev_sorted (n : nat) :
  StronglySorted (reads_before lt v) (insertion_argsort_rev lt v n).
Proof.
  unfold insertion_argsort_rev.
  apply sift_fold_sorted; constructor.
Qed.
End ArgsortFacts.

Lemma StronglySorted_firstn {A : Type} (R : A -> A -> Prop) (l : list A) :
  StronglySorted R l -> forall m, StronglySorted R (firstn m l).
Proof.
  induction 1 as [|x l Hs IH Hall]; intros m.
  - rewrite firstn_nil. constructor.
  - destruct m as [|m]; cbn [firstn]; constructor; [apply IH|].
    rewrite <- (firstn_skipn m l) in Hall.
    now apply Forall_app in Hall.
Qed.

(** ** The selection *)

Lemma top_indices_firstn (similarities : list float32) (top_k : Z) :
  top_indices similarities top_k
  = firstn (length similarities
            - slice_start (- top_k) (argsort similarities))
      (insertion_argsort_rev npy_lt (score similarities)
         (length similarities)).
Proof.
  unfold top_indices, select, slice_from.
  fold (slice_start (- top_k) (argsort similarities)).
  unfold argsort at 2.
  rewrite skipn_rev, rev_involutive.
  now rewrite (Permutation_length (insertion_argsort_rev_perm _ _ _)), length_seq.
Qed.

Lemma argsort_length (similarities : list float32) :
  length (argsort similarities) = length similarities.
Proof.
  unfold argsort. rewrite length_rev.
  now rewrite (Permutation_length (insertion_argsort_rev_perm _ _ _)), length_seq.
Qed.

Lemma top_indices_length (similarities : list float32) (top_k : Z) :
  length (top_indices similarities top_k)
  = (length similarities - slice_start (- top_k) (argsort similarities))%nat.
Proof.
  rewrite top_indices_firstn, length_firstn.
  rewrite (Permutation_length (insertion_argsort_rev_perm _ _ _)), length_seq.
  lia.
Qed.

(** For [k >= 1] the selection has [min(k, n)] entries. *)
Lemma top_indices_length_pos (similarities : list float32) (top_k : Z) :
  1 <= top_k ->
  len (top_indices similarities top_k) = Z.min top_k (len similarities).
Proof.
  intros Hk. unfold len. rewrite top_indices_length. unfold slice_start, len.
  rewrite argsort_length.
  replace (- top_k <? 0) with true by (symmetry; apply Z.ltb_lt; lia).
  lia.
Qed.

(** For [k = 0] the slice [[-0:]] is the whole array. *)
Lemma top_indices_length_zero (similarities : list float32) :
  length (top_indices similarities 0) = length similarities.
Proof.
  rewrite top_indices_length. unfold slice_start, len. cbn. lia.
Qed.

(** C10: the chunk indices that the selection returns are pairwise
    distinct, for every list of scores and every [k]. *)
Theorem top_indices_distinct (similarities : list float32) (top_k : Z) :
  NoDup (top_indices similarities top_k).
Proof.
  rewrite top_indices_firstn.
  set (d := insertion_argsort_rev _ _ _).
  assert (Hd : NoDup d).
  { apply (Permutation_NoDup
             (Permutation_sym (insertion_argsort_rev_perm _ _ _))).
    apply seq_NoDup. }
  rewrite <- (firstn_skipn (length similarities
      - slice_start (- top_k) (argsort similarities)) d) in Hd.
  now apply NoDup_app_remove_r in Hd.
Qed.

(** ** The order of the selection *)

Lemma StronglySorted_impl {A : Type} (R R' : A -> A -> Prop) (l : list A) :
  (forall x y, R x y -> R' x y) ->
  StronglySorted R l -> StronglySorted R' l.
Proof.
  intros HR. induction 1 as [|x l Hs IH Hall]; constructor; [exact IH|].
  eapply Forall_impl; [|exact Hall]. intros y. apply HR.
Qed.

Lemma StronglySorted_snoc {A : Type} (R : A -> A -> Prop) (l : list A)
    (x : A) :
  StronglySorted R l -> Forall (fun y => R y x) l ->
  StronglySorted R (l ++ [x]).
Proof.
  induction 1 as [|y l Hs IH Hall]; intros Hx; cbn [app].
  - constructor; constructor.
  - inversion Hx as [|? ? Hy Hl]; subst.
    constructor; [now apply IH|].
    apply Forall_app. split; [exact Hall | now constructor].
Qed.

(** Reading a sorted list from the end reverses its order. *)
Lemma StronglySorted_rev {A : Type} (R : A -> A -> Prop) (l : list A) :
  StronglySorted R l -> StronglySorted (fun x y => R y x) (rev l).
Proof.
  induction 1 as [|x l Hs IH Hall]; cbn [rev]; [constructor|].
  apply StronglySorted_snoc; [exact IH|].
  apply Forall_rev. exact Hall.
Qed.

Lemma StronglySorted_skipn {A : Type} (R : A -> A -> Prop) (l : list A) :
  StronglySorted R l -> forall n, StronglySorted R (skipn n l).
Proof.
  induction 1 as [|x l Hs IH Hall]; intros n.
  - rewrite skipn_nil. constructor.
  - destruct n as [|n]; cbn [skipn]; [now constructor | apply IH].
Qed.

Lemma selection_sorted (similarities : list float32) :
  StronglySorted (reads_before npy_lt (score similarities))
    (insertion_argsort_rev npy_lt (score similarities) (length similarities)).
Proof.
  apply insertion_argsort_rev_sorted; [apply npy_lt_asym | apply npy_lt_cotrans].
Qed.

(** The insertion sort is one of the sorts [np.argsort] may be. *)
Lemma argsort_sorts_ascending (similarities : list float32) :
  sorts_ascending similarities (argsort similarities).
Proof.
  unfold sorts_ascending, argsort. split.
  - rewrite <- Permutation_rev. apply insertion_argsort_rev_perm.
  - pose proof (selection_sorted similarities) as S.
    apply StronglySorted_rev in S. revert S. apply StronglySorted_impl.
    intros i j [H _]. exact H.
Qed.

(** C1, as amended: for every list of scores and every [k] the returned
    sequence is ordered by descending score (in numpy's order, NaN above
    every number), whatever order [np.argsort] leaves equal scores in. The
    code has no tie rule: the order of chunks with the same score is the
    reverse of the order the sort left them in, which numpy's default sort
    does not fix. *)
Theorem selection_descending
    (similarities : list float32) (order : list nat) (top_k : Z) :
  sorts_ascending similarities order ->
  StronglySorted (not_lower similarities) (select top_k order).
Proof.
  intros [_ S]. unfold select, slice_from.
  apply (StronglySorted_rev
           (fun i j => npy_lt (score similarities j) (score similarities i)
                       = false)).
  now apply StronglySorted_skipn.
Qed.

Lemma selection_descending_witness :
  StronglySorted (not_lower [f32_one; f32_zero; f32_one])
                 (top_indices [f32_one; f32_zero; f32_one] 3).
Proof.
  apply (selection_descending [f32_one; f32_zero; f32_one]
           (argsort [f32_one; f32_zero; f32_one]) 3).
  apply argsort_sorts_ascending.
Defined.

(** C1 as stated fails: for two chunks with the same score, the order
    [0, 1] is an ascending order of the scores (the one a stable sort
    returns, and numpy's insertion sort), and the selection made from it
    ranks the chunk with the higher index first. The order [1, 0] is
    ascending too and gives the other ranking: the code fixes neither. *)
Lemma tie_order_not_fixed :
  sorts_ascending [f32_one; f32_one] [0%nat; 1%nat] /\
  argsort [f32_one; f32_one] = [0%nat; 1%nat] /\
  select 2 [0%nat; 1%nat] = [1%nat; 0%nat] /\
  ~ StronglySorted (ties_low_index_first [f32_one; f32_one])
      (select 2 [0%nat; 1%nat]) /\
  sorts_ascending [f32_one; f32_one] [1%nat; 0%nat] /\
  select 2 [1%nat; 0%nat] = [0%nat; 1%nat].
Proof.
  split; [|split; [reflexivity|split; [reflexivity|split; [|split]]]].
  - split; [reflexivity|]. repeat constructor.
  - intros H. change (select 2 [0%nat; 1%nat]) with [1%nat; 0%nat] in H.
    apply StronglySorted_inv in H. destruct H as [_ H].
    apply Forall_inv in H. destruct H as [H|[_ H]].
    + vm_compute in H. discriminate.
    + lia.
  - split; [apply perm_swap|]. repeat constructor.
  - reflexivity.
Qed.

(** * The orchestration *)

(** ** The number of chunks returned *)

(** C5 at [top_k = 0] on a corpus of two chunks: the retrieval returns both
    chunks, not [min(0, 2) = 0] of them. *)
Theorem top_k_zero_returns_all :
  find_relevant_chunks unit_encode two_chunks (lit "What is the mowing price?") 0
  = Returned [(lit "bagging for $10 extra", f32_one);
              (lit "weekly mowing at $40", f32_one)].
Proof. vm_compute. reflexivity. Qed.

Lemma for_each_length {A B : Type} (f : A -> result B) (l : list A) :
  forall ys, for_each f l = Returned ys -> length ys = length l.
Proof.
  induction l as [|x l IH]; intros ys H; cbn [for_each bind] in H.
  - now injection H as <-.
  - destruct (f x) as [y|e]; cbn [bind] in H; [|discriminate].
    destruct (for_each f l) as [ys'|e]; cbn [bind] in H; [|discriminate].
    injection H as <-. cbn [length]. now rewrite (IH ys').
Qed.

(** For [top_k >= 1] a retrieval that returns has [min(top_k, n)] entries,
    [n] being the number of rows of the embedding matrix. *)
Lemma find_relevant_chunks_length
    (encode : list text -> result (list vector))
    (self : system) (question : text) (top_k : Z)
    (relevant : list (text * float32)) :
  1 <= top_k ->
  find_relevant_chunks encode self question top_k = Returned relevant ->
  len relevant = Z.min top_k (len (chunk_embeddings self)).
Proof.
  intros Hk H. unfold find_relevant_chunks in H.
  destruct (encode [question]) as [qe|e]; cbn [bind] in H; [|discriminate].
  destruct (for_each _ (chunk_embeddings self)) as [sims|e] eqn:S;
    cbn [bind] in H; [|discriminate].
  apply for_each_length in S. apply for_each_length in H.
  pose proof (top_indices_length_pos sims top_k Hk) as L.
  unfold len in *. rewrite H, <- S. exact L.
Qed.

(** On an empty embedding matrix the retrieval returns the empty sequence,
    for every [k] and every embedder that returns. *)
Lemma find_relevant_chunks_empty
    (encode : list text -> result (list vector))
    (cs : list text) (question : text) (top_k : Z) (qe : list vector) :
  encode [question] = Returned qe ->
  find_relevant_chunks encode (System cs []) question top_k = Returned [].
Proof.
  intros E. unfold find_relevant_chunks. rewrite E.
  cbn [bind for_each chunk_embeddings].
  assert (N : top_indices [] top_k = []).
  { apply length_zero_iff_nil. rewrite top_indices_length. reflexivity. }
  rewrite N. reflexivity.
Qed.

(** ** Failures *)

Section Failures.
Variable encode : list text -> result (list vector).
Variable post : text -> result response.

Lemma generate_failure (prompt d : text) :
  synthesis_failure (post prompt) = Some d ->
  match generate post prompt with
  | Returned answer => answer = error_prefix ++ d
  | Raise e => exn_str e = d
  end.
Proof.
  unfold synthesis_failure, generate.
  destruct (post prompt) as [r|e]; cbn [bind].
  - destruct (status_code r =? 200).
    + destruct (body r) as [j|e]; cbn [bind].
      * destruct (get_response j) as [a|e]; cbn [bind].
        -- discriminate.
        -- intros H. now injection H.
      * intros H. now injection H.
    + intros H. injection H as <-. reflexivity.
  - intros H. now injection H.
Qed.

Lemma session_question (self : system) (line : text) (rest : list text) :
  is_quit (strip line) = false ->
  truthy (strip line) = true ->
  session encode post self (line :: rest)
  = match answer_question encode post self (strip line) with
    | Returned answer => Answer answer
    | Raise e => ErrorGenerating e
    end :: session encode post self rest.
Proof.
  intros Q T. cbn [session]. rewrite Q, T. cbn [negb].
  destruct (answer_question encode post self (strip line)); reflexivity.
Qed.
End Failures.

(** C7, as amended: when the embedding of the question raises,
    [answer_question] does not catch the exception: it raises it to its
    caller. The loop of [main] catches it, reports the error for that
    question and goes on with the next line of input. *)
Theorem embedding_failure_raises
    (encode : list text -> result (list vector))
    (post : text -> result response)
    (self : system) (line : text) (rest : list text) (e : exn) :
  is_quit (strip line) = false ->
  truthy (strip line) = true ->
  encode [strip line] = Raise e ->
  answer_question encode post self (strip line) = Raise e /\
  session encode post self (line :: rest)
  = ErrorGenerating e :: session encode post self rest.
Proof.
  intros Q T E.
  assert (A : answer_question encode post self (strip line) = Raise e).
  { unfold answer_question, find_relevant_chunks. rewrite E. reflexivity. }
  split; [exact A|]. rewrite session_question by assumption.
  now rewrite A.
Qed.

Lemma embedding_failure_raises_witness :
  answer_question failing_encode ok_post two_chunks (lit "What is the price?")
  = Raise (Exn (lit "RuntimeError") (lit "embedding model unavailable")).
Proof.
  apply (embedding_failure_raises failing_encode ok_post two_chunks
           (lit " What is the price? ") []).
  - vm_compute. reflexivity.
  - vm_compute. reflexivity.
  - vm_compute. reflexivity.
Defined.

(** C7 as stated fails: with an embedder that raises, [answer_question]
    returns no message. *)
Lemma embedding_failure_not_caught :
  failing_encode [lit "What is the price?"]
  = Raise (Exn (lit "RuntimeError") (lit "embedding model unavailable")) /\
  ~ exists message,
      answer_question failing_encode ok_post two_chunks
        (lit "What is the price?") = Returned message.
Proof.
  split; [reflexivity|]. intros [message H]. vm_compute in H. discriminate.
Qed.

(** C8: when the retrieval found chunks and the synthesis call fails (an
    exception, or a status other than 200), [answer_question] returns the
    string "Error generating answer: " followed by the text of the
    exception or the status code; it does not raise, and the loop of
    [main] prints that string and goes on with the next line of input. *)
Theorem synthesis_failure_reported
    (encode : list text -> result (list vector))
    (post : text -> result response)
    (self : system) (line : text) (rest : list text)
    (relevant : list (text * float32)) (d : text) :
  is_quit (strip line) = false ->
  truthy (strip line) = true ->
  find_relevant_chunks encode self (strip line) 3 = Returned relevant ->
  relevant <> [] ->
  synthesis_failure
    (post (make_prompt (strip line)
             (join [newline; newline] (map fst relevant)))) = Some d ->
  answer_question encode post self (strip line)
  = Returned (error_prefix ++ d) /\
  session encode post self (line :: rest)
  = Answer (error_prefix ++ d) :: session encode post self rest.
Proof.
  intros Q T F N S.
  assert (A : answer_question encode post self (strip line)
              = Returned (error_prefix ++ d)).
  { unfold answer_question. rewrite F. cbn [bind].
    destruct relevant as [|r rs]; [congruence|].
    pose proof (generate_failure post _ _ S) as G.
    destruct (generate post _) as [a|e]; now subst. }
  split; [exact A|]. rewrite session_question by assumption.
  now rewrite A.
Qed.

Lemma synthesis_failure_reported_witness :
  session unit_encode broken_post two_chunks
    [lit "What is the price?"; lit "quit"]
  = [Answer (lit "Error generating answer: 500"); Goodbye].
Proof.
  apply (synthesis_failure_reported unit_encode broken_post two_chunks
           (lit "What is the price?") [lit "quit"]
           [(lit "bagging for $10 extra", f32_one);
            (lit "weekly mowing at $40", f32_one)]
           (lit "500")).
  - vm_compute. reflexivity.
  - vm_compute. reflexivity.
  - vm_compute. reflexivity.
  - discriminate.
  - vm_compute. reflexivity.
Defined.

(** A zero chunk vector scores NaN, which numpy sorts above every number:
    the chunk ranks first, before a chunk that matches the query. *)
Example zero_vector_ranks_first :
  find_relevant_chunks unit_encode
    (System [lit "weekly mowing at $40"; lit "bagging for $10 extra"]
            [[f32_one]; [f32_zero]])
    (lit "What is the mowing price?") 1
  = Returned [(lit "bagging for $10 extra", S754_nan)].
Proof. vm_compute. reflexivity. Qed.

(** A refused connection is reported for its question, and the next
    question is asked of the same system. *)
Example refused_connection_session :
  session unit_encode down_post two_chunks
    [lit "What is the price?"; lit ""; lit "Do they offer bagging?"; lit "Q"]
  = [Answer (lit "Error generating answer: connection refused");
     PleaseEnter;
     Answer (lit "Error generating answer: connection refused");
     Goodbye].
Proof. vm_compute. reflexivity. Qed.

(** * More on the chunker *)

Lemma drop_while_head {A : Type} (p : A -> bool) (l : list A) (h : A)
    (t : list A) :
  drop_while p l = h :: t -> p h = false.
Proof.
  induction l as [|x l IH]; cbn [drop_while]; [discriminate|].
  destruct (p x) eqn:E; [exact IH|]. intros H. injection H as <- _. exact E.
Qed.

Lemma rstrip_prefix (x : text) :
  rstrip x ++ rev (take_while is_space (rev x)) = x.
Proof.
  unfold rstrip. rewrite <- rev_app_distr, take_drop_while.
  apply rev_involutive.
Qed.

Lemma rstrip_idem (x : text) : rstrip (rstrip x) = rstrip x.
Proof. unfold rstrip. now rewrite rev_involutive, drop_while_idem. Qed.

Lemma lstrip_rstrip (x : text) : lstrip x = x -> lstrip (rstrip x) = rstrip x.
Proof.
  intros Hx. pose proof (rstrip_prefix x) as P.
  destruct (rstrip x) as [|h r]; [reflexivity|].
  cbn [lstrip drop_while]. destruct (is_space h) eqn:E; [|reflexivity].
  exfalso. rewrite <- P in Hx. unfold lstrip in Hx.
  cbn [app drop_while] in Hx. rewrite E in Hx.
  pose proof (drop_while_length is_space
                (r ++ rev (take_while is_space (rev x)))) as L.
  rewrite Hx in L. cbn [length] in L. lia.
Qed.

Lemma strip_idem (s : text) : strip (strip s) = strip s.
Proof.
  unfold strip at 1.
  assert (H : lstrip (strip s) = strip s).
  { unfold strip. apply lstrip_rstrip. apply drop_while_idem. }
  rewrite H. unfold strip. apply rstrip_idem.
Qed.

(** A step from a carried buffer leaves a carried buffer, for every
    [chunk_size]. *)
Lemma carried_step (chunk_size : Z) (chunks : list text) (cur line : text) :
  carried chunk_size cur ->
  carried chunk_size (snd (chunk_step chunk_size (chunks, cur) line)).
Proof.
  intros Hcur. unfold chunk_step.
  destruct (is_timestamp line).
  - destruct ((chunk_size <? len cur) && truthy (strip cur));
      [right; reflexivity | exact Hcur].
  - destruct (chunk_size <? len (cur ++ line ++ [space])) eqn:L.
    + destruct (truthy (strip (cur ++ line ++ [space]))) eqn:S;
        [right; reflexivity|].
      right. rewrite truthy_strip in S. now apply negb_false_iff in S.
    + left. now apply Z.ltb_ge.
Qed.

(** On a carried buffer a timestamp line changes nothing: its flush is
    never taken. *)
Lemma timestamp_step (chunk_size : Z) (chunks : list text) (cur line : text) :
  carried chunk_size cur ->
  is_timestamp line = true ->
  chunk_step chunk_size (chunks, cur) line = (chunks, cur).
Proof.
  intros Hcur T. unfold chunk_step. rewrite T.
  destruct Hcur as [H|H].
  - apply Z.ltb_ge in H. now rewrite H.
  - rewrite truthy_strip, H. now rewrite andb_false_r.
Qed.

Lemma content_fold (chunk_size : Z) (ls : list text) :
  forall chunks cur,
    carried chunk_size cur ->
    fold_left (chunk_step chunk_size) ls (chunks, cur)
    = fold_left (chunk_step chunk_size)
        (filter (fun l => negb (is_timestamp l)) ls) (chunks, cur).
Proof.
  induction ls as [|l ls IH]; intros chunks cur Hcur; [reflexivity|].
  cbn [fold_left filter]. destruct (is_timestamp l) eqn:T; cbn [negb].
  - rewrite timestamp_step by assumption. now apply IH.
  - cbn [fold_left].
    pose proof (carried_step chunk_size chunks cur l Hcur) as C.
    destruct (chunk_step chunk_size (chunks, cur) l) as [chunks1 cur1].
    now apply IH.
Qed.

(** X1: the timestamp lines have no effect on the chunks, for every
    [chunk_size]: two transcripts with the same lines that are not
    timestamps get the same chunks. The flush in the timestamp branch is
    never taken. *)
Theorem timestamps_do_not_chunk
    (chunk_size : Z) (chunks : list text) (t t' : text) :
  content_lines t = content_lines t' ->
  chunk_transcript chunk_size chunks t = chunk_transcript chunk_size chunks t'.
Proof.
  intros H. unfold chunk_transcript.
  assert (C : carried chunk_size []) by (right; reflexivity).
  pose proof (content_fold chunk_size (split newline t) chunks [] C) as E.
  pose proof (content_fold chunk_size (split newline t') chunks [] C) as E'.
  unfold content_lines in H. rewrite H in E.
  set (a := fold_left _ (split newline t) _).
  set (b := fold_left _ (split newline t') _).
  assert (Hab : a = b) by (subst a b; etransitivity; [exact E | now symmetry]).
  clearbody a b. now subst.
Qed.

Lemma timestamps_do_not_chunk_witness :
  chunk_transcript 5 [] (lit "0:02
Hi there
1:15
you")
  = chunk_transcript 5 [] (lit "Hi there
you").
Proof.
  apply (timestamps_do_not_chunk 5 [] (lit "0:02
Hi there
1:15
you") (lit "Hi there
you")).
  vm_compute. reflexivity.
Defined.

(** ** Chunks across transcripts *)

Lemma chunk_transcript_append (chunk_size : Z) (chunks : list text)
    (t : text) :
  chunk_transcript chunk_size chunks t = chunks ++ chunk t chunk_size.
Proof.
  unfold chunk, chunk_transcript.
  pose proof (chunk_fold_append chunk_size (split newline t) chunks []) as E.
  set (a := fold_left _ _ (chunks, _)) in *.
  set (b := fold_left _ _ ([], _)) in *.
  clearbody a b. subst a. destruct b as [c cur].
  cbn [fst snd app]. destruct (truthy (strip cur)); [|reflexivity].
  now rewrite app_assoc.
Qed.

Lemma fold_transcripts (chunk_size : Z) (ts : list text) :
  forall acc,
    fold_left (chunk_transcript chunk_size) ts acc
    = acc ++ concat (map (fun t => chunk t chunk_size) ts).
Proof.
  induction ts as [|t ts IH]; intros acc; cbn [fold_left map concat].
  - now rewrite app_nil_r.
  - rewrite IH, chunk_transcript_append. now rewrite app_assoc.
Qed.

(** X2: the chunks of a list of transcripts are the chunks of each
    transcript, in the order of the transcripts: no buffer is carried from
    one transcript into the next, and no chunk spans two transcripts. *)
Theorem create_chunks_concat (chunk_size : Z) (transcripts : list text) :
  create_chunks chunk_size transcripts
  = concat (map (fun t => chunk t chunk_size) transcripts).
Proof. unfold create_chunks. now rewrite fold_transcripts. Qed.

(** ** Chunks as runs of lines *)

Lemma accumulated_snoc (pending : list text) (l : text) :
  accumulated pending ++ l ++ [space] = accumulated (pending ++ [l]).
Proof. rewrite accumulated_app. cbn. now rewrite app_nil_r. Qed.

(** A step closes the pending run as a chunk or extends it by a content
    line. *)
Lemma runs_step (chunk_size : Z) (runs : list (list text))
    (pending : list text) (l : text) :
  Forall (fun run => blank (accumulated run) = false) runs ->
  exists runs' pending',
    chunk_step chunk_size (map run_chunk runs, accumulated pending) l
    = (map run_chunk runs', accumulated pending') /\
    concat runs' ++ pending'
    = (concat runs ++ pending) ++ filter (fun l => negb (is_timestamp l)) [l] /\
    Forall (fun run => blank (accumulated run) = false) runs'.
Proof.
  intros Hruns.
  assert (Hclose : forall run,
    truthy (strip (accumulated run)) = true ->
    map run_chunk runs ++ [strip (accumulated run)]
    = map run_chunk (runs ++ [run]) /\
    Forall (fun run => blank (accumulated run) = false) (runs ++ [run])).
  { intros run T. split; [now rewrite map_app|].
    apply Forall_app. split; [exact Hruns|].
    constructor; [|constructor].
    rewrite truthy_strip in T. now apply negb_true_iff in T. }
  unfold chunk_step. cbn [filter].
  destruct (is_timestamp l); cbn [negb].
  - destruct (chunk_size <? len (accumulated pending)); cbn [andb];
      [destruct (truthy (strip (accumulated pending))) eqn:T|].
    + destruct (Hclose pending T) as [E F]. rewrite E.
      exists (runs ++ [pending]), []. repeat split; [|exact F].
      rewrite concat_app. cbn [concat]. now rewrite !app_nil_r.
    + exists runs, pending. repeat split; [|exact Hruns]. now rewrite app_nil_r.
    + exists runs, pending. repeat split; [|exact Hruns]. now rewrite app_nil_r.
  - rewrite accumulated_snoc.
    destruct (chunk_size <? len (accumulated (pending ++ [l])));
      [destruct (truthy (strip (accumulated (pending ++ [l])))) eqn:T|].
    + destruct (Hclose (pending ++ [l]) T) as [E F]. rewrite E.
      exists (runs ++ [pending ++ [l]]), []. repeat split; [|exact F].
      rewrite concat_app. cbn [concat]. now rewrite !app_nil_r, app_assoc.
    + exists runs, (pending ++ [l]). repeat split; [|exact Hruns].
      now rewrite app_assoc.
    + exists runs, (pending ++ [l]). repeat split; [|exact Hruns].
      now rewrite app_assoc.
Qed.

Lemma runs_fold (chunk_size : Z) (ls : list text) :
  forall runs pending,
    Forall (fun run => blank (accumulated run) = false) runs ->
    exists runs' pending',
      fold_left (chunk_step chunk_size) ls
        (map run_chunk runs, accumulated pending)
      = (map run_chunk runs', accumulated pending') /\
      concat runs' ++ pending'
      = (concat runs ++ pending) ++ filter (fun l => negb (is_timestamp l)) ls /\
      Forall (fun run => blank (accumulated run) = false) runs'.
Proof.
  induction ls as [|l ls IH]; intros runs pending Hruns.
  - exists runs, pending. cbn [fold_left filter]. now rewrite app_nil_r.
  - cbn [fold_left].
    destruct (runs_step chunk_size runs pending l Hruns)
      as (r1 & p1 & E1 & C1 & F1).
    rewrite E1. destruct (IH r1 p1 F1) as (r2 & p2 & E2 & C2 & F2).
    exists r2, p2. repeat split; [exact E2| |exact F2].
    rewrite C2, C1. change (l :: ls) with ([l] ++ ls).
    now rewrite filter_app, app_assoc.
Qed.

(** X3: the chunks of a transcript are runs of consecutive content lines:
    the lines that are not timestamps split, in order, into runs and a
    rest; every chunk is the text of one run (each line followed by a
    space) trimmed, no run is whitespace only, and the rest, which makes
    no chunk, is whitespace only. *)
Theorem chunks_are_runs (transcript : text) (chunk_size : Z) :
  exists runs rest,
    content_lines transcript = concat runs ++ rest /\
    chunk transcript chunk_size = map run_chunk runs /\
    Forall (fun run => blank (accumulated run) = false) runs /\
    blank (accumulated rest) = true.
Proof.
  destruct (runs_fold chunk_size (split newline transcript) [] []
              (Forall_nil _)) as (runs & pending & E & C & F).
  cbn [concat app map] in C, E. change (accumulated []) with (@nil ascii) in E.
  unfold chunk, chunk_transcript.
  set (st := fold_left _ _ _).
  assert (Est : st = (map run_chunk runs, accumulated pending)) by exact E.
  clearbody st. subst st.
  destruct (truthy (strip (accumulated pending))) eqn:T.
  - exists (runs ++ [pending]), []. repeat split.
    + rewrite concat_app. cbn [concat]. rewrite !app_nil_r. now symmetry.
    + now rewrite map_app.
    + apply Forall_app. split; [exact F|]. constructor; [|constructor].
      rewrite truthy_strip in T. now apply negb_true_iff in T.
  - exists runs, pending. repeat split; [now symmetry | exact F|].
    rewrite truthy_strip in T. now apply negb_false_iff in T.
Qed.

Lemma flushed_trimmed (cur : text) :
  truthy (strip cur) = true -> strip cur <> [] /\ strip (strip cur) = strip cur.
Proof.
  intros T. split; [|apply strip_idem].
  intros N. rewrite N in T. discriminate.
Qed.

Lemma chunk_step_trimmed (chunk_size : Z) (chunks : list text) (cur l : text) :
  Forall (fun c => c <> [] /\ strip c = c) chunks ->
  Forall (fun c => c <> [] /\ strip c = c)
         (fst (chunk_step chunk_size (chunks, cur) l)).
Proof.
  intros H. unfold chunk_step.
  destruct (is_timestamp l).
  - destruct (chunk_size <? len cur); cbn [andb fst]; [|exact H].
    destruct (truthy (strip cur)) eqn:T; cbn [fst]; [|exact H].
    apply Forall_app. split; [exact H|].
    constructor; [now apply flushed_trimmed | constructor].
  - destruct (chunk_size <? len (cur ++ l ++ [space])); cbn [fst]; [|exact H].
    destruct (truthy (strip (cur ++ l ++ [space]))) eqn:T; cbn [fst];
      [|exact H].
    apply Forall_app. split; [exact H|].
    constructor; [now apply flushed_trimmed | constructor].
Qed.

Lemma chunk_transcript_trimmed (chunk_size : Z) (chunks : list text)
    (t : text) :
  Forall (fun c => c <> [] /\ strip c = c) chunks ->
  Forall (fun c => c <> [] /\ strip c = c)
         (chunk_transcript chunk_size chunks t).
Proof.
  intros H. unfold chunk_transcript.
  assert (G : forall ls st,
    Forall (fun c => c <> [] /\ strip c = c) (fst st) ->
    Forall (fun c => c <> [] /\ strip c = c)
           (fst (fold_left (chunk_step chunk_size) ls st))).
  { induction ls as [|l ls IH]; intros [c cur] Hc; [exact Hc|].
    cbn [fold_left]. apply IH. now apply chunk_step_trimmed. }
  specialize (G (split newline t) (chunks, []) H).
  set (st := fold_left _ _ _) in *. clearbody st. destruct st as [c cur].
  cbn [fst] in G. destruct (truthy (strip cur)) eqn:T; [|exact G].
  apply Forall_app. split; [exact G|].
  constructor; [now apply flushed_trimmed | constructor].
Qed.

(** X4: every chunk of a corpus is trimmed and not empty: it is its own
    [strip()] and holds at least one character. *)
Theorem chunks_trimmed (chunk_size : Z) (transcripts : list text) :
  Forall (fun c => c <> [] /\ strip c = c)
         (create_chunks chunk_size transcripts).
Proof.
  unfold create_chunks.
  assert (G : forall ts acc,
    Forall (fun c => c <> [] /\ strip c = c) acc ->
    Forall (fun c => c <> [] /\ strip c = c)
           (fold_left (chunk_transcript chunk_size) ts acc)).
  { induction ts as [|t ts IH]; intros acc Hacc; [exact Hacc|].
    cbn [fold_left]. apply IH. now apply chunk_transcript_trimmed. }
  apply G. constructor.
Qed.

(** ** Timestamp lines *)

Lemma rstrip_strip (s : text) : rstrip (strip s) = strip s.
Proof. unfold strip. apply rstrip_idem. Qed.

Lemma rstrip_snoc_space (x : text) (c : ascii) :
  is_space c = true -> rstrip (x ++ [c]) = rstrip x.
Proof.
  intros H. unfold rstrip. rewrite rev_app_distr. cbn [rev app drop_while].
  now rewrite H.
Qed.

Lemma rstrip_length (x : text) : (length (rstrip x) <= length x)%nat.
Proof.
  unfold rstrip. rewrite length_rev.
  pose proof (drop_while_length is_space (rev x)) as L.
  now rewrite length_rev in L.
Qed.

Lemma take_while_cons {A : Type} (p : A -> bool) (x : A) (l : list A) :
  p x = true -> take_while p (x :: l) <> [].
Proof. intros H. cbn [take_while]. rewrite H. discriminate. Qed.

(** X5: a line whose characters all lie below code point 256 is skipped
    as a timestamp exactly when, trimmed, it is one or more ASCII digits,
    a colon, and one or more ASCII digits. (A line with digits of another
    script is outside these texts.) *)
Theorem is_timestamp_iff (line : text) :
  is_timestamp line = true <->
  exists a b,
    a <> [] /\ b <> [] /\ digits a = true /\ digits b = true /\
    strip line = a ++ colon :: b.
Proof.
  unfold is_timestamp, match_timestamp, digits. split.
  - intros H. destruct (strip line) as [|d s0] eqn:S; [discriminate|].
    apply andb_prop in H. destruct H as [Hd H].
    pose proof (take_drop_while is_digit (d :: s0)) as Ha.
    destruct (drop_while is_digit (d :: s0)) as [|c [|d' r']] eqn:D;
      try discriminate.
    apply andb_prop in H. destruct H as [H H2].
    apply andb_prop in H. destruct H as [Hc Hd'].
    apply Ascii.eqb_eq in Hc. subst c.
    pose proof (take_drop_while is_digit (d' :: r')) as Hb.
    exists (take_while is_digit (d :: s0)), (take_while is_digit (d' :: r')).
    destruct (drop_while is_digit (d' :: r')) as [|n [|? ?]] eqn:D2;
      try discriminate.
    + split; [now apply take_while_cons|].
      split; [now apply take_while_cons|].
      split; [apply take_while_forallb|].
      split; [apply take_while_forallb|].
      rewrite app_nil_r in Hb. rewrite Hb. now symmetry.
    + exfalso. apply Ascii.eqb_eq in H2. subst n.
      pose proof (rstrip_strip line) as R. rewrite S, <- Ha, <- Hb in R.
      rewrite app_comm_cons, !app_assoc in R.
      rewrite rstrip_snoc_space in R by reflexivity.
      match type of R with
      | rstrip ?x = _ => pose proof (rstrip_length x) as L
      end.
      rewrite R in L. rewrite !length_app in L. cbn [length] in L. lia.
  - intros (a & b & Na & Nb & Da & Db & E). rewrite E.
    destruct a as [|d a]; [congruence|]. destruct b as [|d' b]; [congruence|].
    cbn [forallb] in Da, Db.
    apply andb_prop in Da. destruct Da as [Hd Da].
    apply andb_prop in Db. destruct Db as [Hd' Db].
    change ((d :: a) ++ colon :: d' :: b) with (d :: (a ++ colon :: d' :: b)).
    assert (D1 : drop_while is_digit (d :: a ++ colon :: d' :: b)
                 = colon :: d' :: b).
    { change (d :: a ++ colon :: d' :: b) with ((d :: a) ++ colon :: d' :: b).
      rewrite drop_while_app. cbn [forallb]. now rewrite Hd, Da. }
    assert (D2 : drop_while is_digit (d' :: b) = []).
    { apply drop_while_nil. cbn [forallb]. now rewrite Hd', Db. }
    rewrite D1. cbv beta iota. rewrite D2, Hd, Hd'. reflexivity.
Qed.

(** * More on the ranker *)

(** ** The similarity *)

Lemma similarity_same_length (q v : vector) :
  length v = length q -> exists s, similarity q v = Returned s.
Proof.
  intros H. unfold similarity, dot. rewrite H, Nat.eqb_refl. cbn [bind]. eauto.
Qed.

Lemma similarity_mismatch (q v : vector) :
  length v <> length q -> similarity q v = Raise value_error.
Proof.
  intros H. unfold similarity, dot.
  destruct (Nat.eqb (length q) (length v)) eqn:E; [|reflexivity].
  apply Nat.eqb_eq in E. congruence.
Qed.

(** ** Loops that may raise *)

Lemma for_each_returns {A B : Type} (f : A -> result B) (l : list A) :
  Forall (fun x => exists y, f x = Returned y) l ->
  exists ys,
    for_each f l = Returned ys /\
    Forall2 (fun x y => f x = Returned y) l ys.
Proof.
  induction 1 as [|x l [y Hy] Hl [ys [E F]]]; cbn [for_each].
  - exists []. split; [reflexivity | constructor].
  - exists (y :: ys). rewrite Hy, E. cbn [bind].
    split; [reflexivity | now constructor].
Qed.

Lemma for_each_map {A B : Type} (f : A -> result B) (g : A -> B)
    (l : list A) :
  Forall (fun x => f x = Returned (g x)) l ->
  for_each f l = Returned (map g l).
Proof.
  induction 1 as [|x l Hx Hl IH]; cbn [for_each map]; [reflexivity|].
  now rewrite Hx, IH.
Qed.

Lemma for_each_raises {A B : Type} (f : A -> result B) (e : exn)
    (l : list A) :
  Forall (fun x => f x = Raise e \/ exists y, f x = Returned y) l ->
  Exists (fun x => f x = Raise e) l ->
  for_each f l = Raise e.
Proof.
  induction 1 as [|x l Hx Hl IH]; intros Hex; [inversion Hex|].
  cbn [for_each]. destruct Hx as [Hx|[y Hx]]; rewrite Hx; cbn [bind];
    [reflexivity|].
  inversion Hex as [? ? H|? ? H]; subst; [congruence|].
  now rewrite IH.
Qed.

Lemma index_in_range {A : Type} (l : list A) (i : nat) (d : A) :
  (i < length l)%nat -> index l i = Returned (nth i l d).
Proof.
  intros H. unfold index.
  destruct (nth_error l i) as [a|] eqn:E.
  - now rewrite (nth_error_nth l i d E).
  - apply nth_error_None in E. lia.
Qed.

(** ** The indices selected *)

Lemma top_indices_split (similarities : list float32) (top_k : Z) :
  exists rest,
    insertion_argsort_rev npy_lt (score similarities) (length similarities)
    = top_indices similarities top_k ++ rest.
Proof.
  rewrite top_indices_firstn. eexists. symmetry. apply firstn_skipn.
Qed.

Lemma top_indices_in_range (similarities : list float32) (top_k : Z)
    (i : nat) :
  In i (top_indices similarities top_k) -> (i < length similarities)%nat.
Proof.
  intros H. destruct (top_indices_split similarities top_k) as [rest E].
  assert (Hi : In i (seq 0 (length similarities))).
  { apply (Permutation_in i (insertion_argsort_rev_perm npy_lt
             (score similarities) (length similarities))).
    rewrite E. apply in_or_app. now left. }
  apply in_seq in Hi. lia.
Qed.

Lemma StronglySorted_app_cross {A : Type} (R : A -> A -> Prop)
    (a b : list A) :
  StronglySorted R (a ++ b) ->
  forall x y, In x a -> In y b -> R x y.
Proof.
  induction a as [|h a IH]; intros H x y Hx Hy; [destruct Hx|].
  cbn [app] in H. apply StronglySorted_inv in H. destruct H as [Hs Hall].
  destruct Hx as [->|Hx]; [|now apply IH].
  rewrite Forall_forall in Hall. apply Hall. apply in_or_app. now right.
Qed.

(** X7: the selection holds best-scoring chunks: no chunk that is left out
    scores above a chunk that is selected (in numpy's order, NaN above
    every number), for every list of scores and every [top_k]. *)
Theorem top_indices_best (similarities : list float32) (top_k : Z)
    (i j : nat) :
  In i (top_indices similarities top_k) ->
  (j < length similarities)%nat ->
  ~ In j (top_indices similarities top_k) ->
  npy_lt (score similarities i) (score similarities j) = false.
Proof.
  intros Hi Hj Hnj.
  destruct (top_indices_split similarities top_k) as [rest E].
  pose proof (selection_sorted similarities) as S. rewrite E in S.
  assert (Hin : In j (top_indices similarities top_k ++ rest)).
  { rewrite <- E.
    apply (Permutation_in j (Permutation_sym (insertion_argsort_rev_perm
             npy_lt (score similarities) (length similarities)))).
    apply in_seq. lia. }
  apply in_app_or in Hin. destruct Hin as [Hin|Hin]; [contradiction|].
  exact (proj1 (StronglySorted_app_cross _ _ _ S i j Hi Hin)).
Qed.

Lemma top_indices_best_witness :
  npy_lt (score [f32_zero; f32_one; f32_zero] 1)
         (score [f32_zero; f32_one; f32_zero] 0) = false.
Proof.
  apply (top_indices_best [f32_zero; f32_one; f32_zero] 1 1 0).
  - vm_compute. left. reflexivity.
  - vm_compute. lia.
  - vm_compute. intros [H|[]]. discriminate.
Defined.

(** ** The retrieval as a whole *)

(** X8: on a system whose embedding rows all have the dimension of the
    query vector, and which has a chunk for every row, the retrieval does
    not raise, for every [top_k]: every row gets a score, and the result
    pairs each selected index with the chunk at that index and the score
    of the row at that index. *)
Theorem find_relevant_chunks_returns
    (encode : list text -> result (list vector))
    (self : system) (question : text) (top_k : Z)
    (qv : vector) (others : list vector) :
  encode [question] = Returned (qv :: others) ->
  Forall (fun row => length row = length qv) (chunk_embeddings self) ->
  (length (chunk_embeddings self) <= length (chunks self))%nat ->
  exists similarities,
    Forall2 (fun row s => similarity qv row = Returned s)
            (chunk_embeddings self) similarities /\
    find_relevant_chunks encode self question top_k
    = Returned (map (fun i => (nth i (chunks self) [], score similarities i))
                    (top_indices similarities top_k)).
Proof.
  intros E Hdim Hlen. unfold find_relevant_chunks. rewrite E. cbn [bind].
  destruct (for_each_returns (fun row => similarity qv row)
              (chunk_embeddings self)) as (sims & Es & F).
  { eapply Forall_impl; [|exact Hdim]. intros row Hrow.
    now apply similarity_same_length. }
  exists sims. split; [exact F|].
  change (fun chunk_embedding : vector =>
            q <- index (qv :: others) 0 ;; similarity q chunk_embedding)
    with (fun row : vector => similarity qv row).
  rewrite Es. cbn [bind].
  apply for_each_map. apply Forall_forall. intros i Hi.
  apply top_indices_in_range in Hi.
  pose proof (Forall2_length F) as L.
  rewrite (index_in_range (chunks self) i []) by lia.
  rewrite (index_in_range sims i f32_zero) by lia.
  reflexivity.
Qed.

Lemma find_relevant_chunks_returns_witness :
  exists similarities,
    Forall2 (fun row s => similarity [f32_one] row = Returned s)
            (chunk_embeddings two_chunks) similarities /\
    find_relevant_chunks unit_encode two_chunks (lit "price?") 1
    = Returned (map (fun i => (nth i (chunks two_chunks) [],
                               score similarities i))
                    (top_indices similarities 1)).
Proof.
  apply (find_relevant_chunks_returns unit_encode two_chunks (lit "price?") 1
           [f32_one] []).
  - reflexivity.
  - repeat constructor.
  - cbn. lia.
Defined.

(** X9: when the embedder returns a query vector and some embedding row
    has another dimension, the retrieval raises the [ValueError] of
    [np.dot] and returns nothing, whatever the other rows are. *)
Theorem find_relevant_chunks_dimension
    (encode : list text -> result (list vector))
    (self : system) (question : text) (top_k : Z)
    (qv : vector) (others : list vector) :
  encode [question] = Returned (qv :: others) ->
  Exists (fun row => length row <> length qv) (chunk_embeddings self) ->
  find_relevant_chunks encode self question top_k = Raise value_error.
Proof.
  intros E Hex. unfold find_relevant_chunks. rewrite E. cbn [bind].
  change (fun chunk_embedding : vector =>
            q <- index (qv :: others) 0 ;; similarity q chunk_embedding)
    with (fun row : vector => similarity qv row).
  rewrite (for_each_raises (fun row => similarity qv row) value_error);
    [reflexivity| |].
  - apply Forall_forall. intros row _.
    destruct (Nat.eq_dec (length row) (length qv)) as [H|H].
    + right. now apply similarity_same_length.
    + left. now apply similarity_mismatch.
  - eapply Exists_impl; [|exact Hex]. intros row H.
    now apply similarity_mismatch.
Qed.

Lemma find_relevant_chunks_dimension_witness :
  find_relevant_chunks unit_encode
    (System [lit "a"; lit "b"] [[f32_one]; [f32_one; f32_zero]])
    (lit "price?") 3
  = Raise value_error.
Proof.
  apply (find_relevant_chunks_dimension unit_encode
           (System [lit "a"; lit "b"] [[f32_one]; [f32_one; f32_zero]])
           (lit "price?") 3 [f32_one] []).
  - reflexivity.
  - apply Exists_cons_tl. apply Exists_cons_hd. cbn. lia.
Defined.

(** X10: for [top_k <= 0] the selection holds [max(n + top_k, 0)] of the
    [n] indices: all of them for [top_k = 0], and all but [|top_k|] for a
    negative [top_k]; it is never empty while [n > |top_k|]. *)
Theorem top_indices_length_nonpos (similarities : list float32) (top_k : Z) :
  top_k <= 0 ->
  len (top_indices similarities top_k)
  = Z.max (len similarities + top_k) 0.
Proof.
  intros Hk. unfold len. rewrite top_indices_length. unfold slice_start, len.
  rewrite argsort_length.
  replace (- top_k <? 0) with false by (symmetry; apply Z.ltb_ge; lia).
  lia.
Qed.

Lemma top_indices_length_nonpos_witness :
  len (top_indices [f32_one; f32_zero; f32_one] (-1))
  = Z.max (len [f32_one; f32_zero; f32_one] + -1) 0.
Proof.
  apply (top_indices_length_nonpos [f32_one; f32_zero; f32_one] (-1)). lia.
Defined.

(** X11: when [top_k] is at least the number of scores, the selection is
    a permutation of all the indices: every chunk is returned once. *)
Theorem top_indices_all (similarities : list float32) (top_k : Z) :
  len similarities <= top_k ->
  Permutation (top_indices similarities top_k)
              (seq 0 (length similarities)).
Proof.
  intros Hk. rewrite top_indices_firstn.
  assert (S0 : slice_start (- top_k) (argsort similarities) = 0%nat).
  { unfold slice_start, len in *. rewrite argsort_length.
    destruct (- top_k <? 0) eqn:E; [lia|].
    apply Z.ltb_ge in E. lia. }
  rewrite S0, Nat.sub_0_r.
  pose proof (Permutation_length (insertion_argsort_rev_perm npy_lt
                (score similarities) (length similarities))) as HD.
  rewrite length_seq in HD.
  rewrite firstn_all2 by (rewrite HD; lia).
  apply insertion_argsort_rev_perm.
Qed.

Lemma top_indices_all_witness :
  Permutation (top_indices [f32_one; f32_zero] 5) (seq 0 2).
Proof. apply (top_indices_all [f32_one; f32_zero] 5). vm_compute. discriminate. Defined.

Lemma npy_lt_nan (a b : float32) :
  is_nan b = true -> npy_lt a b = false -> is_nan a = true.
Proof.
  destruct b; try discriminate. intros _. unfold npy_lt.
  destruct a; cbn; intros H; congruence.
Qed.

(** X12: a NaN score takes the first place: when some score is NaN and
    [top_k >= 1], the first selected index has a NaN score, whatever the
    other scores are. *)
Theorem nan_ranks_first (similarities : list float32) (top_k : Z) (j : nat) :
  1 <= top_k ->
  (j < length similarities)%nat ->
  is_nan (score similarities j) = true ->
  exists h rest,
    top_indices similarities top_k = h :: rest /\
    is_nan (score similarities h) = true.
Proof.
  intros Hk Hj Hnan.
  pose proof (top_indices_length_pos similarities top_k Hk) as L.
  destruct (top_indices similarities top_k) as [|h t] eqn:T.
  { unfold len in L. cbn [length] in L. lia. }
  exists h, t. split; [reflexivity|].
  destruct (top_indices_split similarities top_k) as [rest E].
  rewrite T in E. cbn [app] in E.
  pose proof (selection_sorted similarities) as S. rewrite E in S.
  apply StronglySorted_inv in S. destruct S as [_ Hall].
  assert (Hin : In j (h :: t ++ rest)).
  { rewrite <- E.
    apply (Permutation_in j (Permutation_sym (insertion_argsort_rev_perm
             npy_lt (score similarities) (length similarities)))).
    apply in_seq. lia. }
  destruct Hin as [->|Hin]; [exact Hnan|].
  rewrite Forall_forall in Hall. destruct (Hall j Hin) as [H _].
  now apply (npy_lt_nan _ (score similarities j)).
Qed.

Lemma nan_ranks_first_witness :
  exists h rest,
    top_indices [f32_one; S754_nan; f32_zero] 2 = h :: rest /\
    is_nan (score [f32_one; S754_nan; f32_zero] h) = true.
Proof.
  apply (nan_ranks_first [f32_one; S754_nan; f32_zero] 2 1).
  - lia.
  - cbn. lia.
  - reflexivity.
Defined.

(** * More on the orchestration *)

(** X13: once the retrieval has returned, [answer_question] returns a
    string and does not raise, whatever the endpoint does: every failure
    of the synthesis call is turned into a returned string. *)
Theorem answer_question_no_raise
    (encode : list text -> result (list vector))
    (post : text -> result response)
    (self : system) (question : text) (relevant : list (text * float32)) :
  find_relevant_chunks encode self question 3 = Returned relevant ->
  exists answer, answer_question encode post self question = Returned answer.
Proof.
  intros F. unfold answer_question. rewrite F. cbn [bind].
  destruct relevant as [|r rs]; [eauto|].
  destruct (generate post _) as [a|e]; eauto.
Qed.

Lemma answer_question_no_raise_witness :
  exists answer,
    answer_question unit_encode down_post two_chunks (lit "price?")
    = Returned answer.
Proof.
  apply (answer_question_no_raise unit_encode down_post two_chunks
           (lit "price?")
           [(lit "bagging for $10 extra", f32_one);
            (lit "weekly mowing at $40", f32_one)]).
  vm_compute. reflexivity.
Defined.

(** X14: on a system with an empty embedding matrix [answer_question]
    returns the fixed no-information sentence whenever the embedder
    returns, and the endpoint has no part in it: the answer is the same
    for every endpoint. *)
Theorem answer_question_empty_corpus
    (encode : list text -> result (list vector))
    (post : text -> result response)
    (cs : list text) (question : text) (qe : list vector) :
  encode [question] = Returned qe ->
  answer_question encode post (System cs []) question
  = Returned no_information.
Proof.
  intros E. unfold answer_question.
  now rewrite (find_relevant_chunks_empty encode cs question 3 qe E).
Qed.

Lemma answer_question_empty_corpus_witness :
  answer_question unit_encode down_post (System [] []) (lit "price?")
  = Returned no_information.
Proof.
  apply (answer_question_empty_corpus unit_encode down_post []
           (lit "price?") [[f32_one]]).
  reflexivity.
Defined.

(** X15: a reply with status 200 whose JSON object has no "response"
    field is not an error: [answer_question] returns the empty string,
    for every retrieval that found chunks. *)
Theorem answer_question_missing_field
    (encode : list text -> result (list vector))
    (post : text -> result response)
    (self : system) (question : text)
    (relevant : list (text * float32)) (fields : list (text * field_value)) :
  find_relevant_chunks encode self question 3 = Returned relevant ->
  relevant <> [] ->
  post (make_prompt question (join [newline; newline] (map fst relevant)))
  = Returned (Response 200 (Returned (JObject fields))) ->
  lookup (lit "response") fields = None ->
  answer_question encode post self question = Returned [].
Proof.
  intros F N P L. unfold answer_question. rewrite F. cbn [bind].
  destruct relevant as [|r rs]; [congruence|].
  unfold generate. rewrite P. cbn [bind status_code body get_response].
  rewrite L. reflexivity.
Qed.

Lemma answer_question_missing_field_witness :
  answer_question unit_encode
    (fun _ => Returned (Response 200
                (Returned (JObject [(lit "error", JString (lit "busy"))]))))
    two_chunks (lit "price?")
  = Returned [].
Proof.
  apply (answer_question_missing_field unit_encode _ two_chunks (lit "price?")
           [(lit "bagging for $10 extra", f32_one);
            (lit "weekly mowing at $40", f32_one)]
           [(lit "error", JString (lit "busy"))]).
  - vm_compute. reflexivity.
  - discriminate.
  - reflexivity.
  - vm_compute. reflexivity.
Defined.

(** ** The loop of [main] *)

(** X16: no failure of the embedder or of the endpoint ends the session.
    When no line of the input is a quit word, the loop handles every line,
    one event for each (a request to enter a question, an answer, or an
    error for that question), and stops only at the end of the input,
    which the outer handler of [main] reports as an initialization
    error. *)
Theorem session_handles_every_line
    (encode : list text -> result (list vector))
    (post : text -> result response)
    (self : system) (inputs : list text) :
  no_quit inputs = true ->
  exists events,
    session encode post self inputs
    = events ++ [ErrorInitializing eof_error] /\
    length events = length inputs /\
    Forall goes_on events.
Proof.
  induction inputs as [|line inputs IH]; intros H.
  - exists []. repeat split. constructor.
  - cbn [no_quit forallb] in H. apply andb_prop in H. destruct H as [Q H].
    apply negb_true_iff in Q. destruct (IH H) as (events & E & L & F).
    cbn [session]. rewrite Q.
    destruct (truthy (strip line)); cbn [negb].
    + destruct (answer_question encode post self (strip line)) as [a|e].
      * exists (Answer a :: events). rewrite E. repeat split.
        -- cbn [length]. now rewrite L.
        -- constructor; [exact I | exact F].
      * exists (ErrorGenerating e :: events). rewrite E. repeat split.
        -- cbn [length]. now rewrite L.
        -- constructor; [exact I | exact F].
    + exists (PleaseEnter :: events). rewrite E. repeat split.
      * cbn [length]. now rewrite L.
      * constructor; [exact I | exact F].
Qed.

Lemma session_handles_every_line_witness :
  exists events,
    session failing_encode down_post two_chunks [lit "price?"; lit " "]
    = events ++ [ErrorInitializing eof_error] /\
    length events = length [lit "price?"; lit " "] /\
    Forall goes_on events.
Proof.
  apply (session_handles_every_line failing_encode down_post two_chunks
           [lit "price?"; lit " "]).
  vm_compute. reflexivity.
Defined.

(** X17: the loop stops at the first quit word: the lines after it are
    never read, so the output does not depend on them. *)
Theorem session_stops_at_quit
    (encode : list text -> result (list vector))
    (post : text -> result response)
    (self : system) (pre : list text) (quit : text) (rest rest' : list text) :
  is_quit (strip quit) = true ->
  session encode post self (pre ++ quit :: rest)
  = session encode post self (pre ++ quit :: rest').
Proof.
  intros Q. induction pre as [|line pre IH]; cbn [app session].
  - now rewrite Q.
  - now rewrite IH.
Qed.

Lemma session_stops_at_quit_witness :
  session unit_encode ok_post two_chunks
    ([lit "price?"] ++ lit " EXIT " :: [lit "more?"])
  = session unit_encode ok_post two_chunks
      ([lit "price?"] ++ lit " EXIT " :: []).
Proof.
  apply (session_stops_at_quit unit_encode ok_post two_chunks
           [lit "price?"] (lit " EXIT ") [lit "more?"] []).
  vm_compute. reflexivity.
Defined.

(** X18: a line of whitespace only never reaches the embedder or the
    endpoint: the loop asks for a question and goes on, whatever the two
    capabilities would do. *)
Theorem session_blank_line
    (encode : list text -> result (list vector))
    (post : text -> result response)
    (self : system) (line : text) (rest : list text) :
  blank line = true ->
  session encode post self (line :: rest)
  = PleaseEnter :: session encode post self rest.
Proof.
  intros B. apply strip_nil in B. cbn [session]. rewrite B. reflexivity.
Qed.

Lemma session_blank_line_witness :
  session failing_encode down_post two_chunks [lit "   "; lit "q"]
  = PleaseEnter :: session failing_encode down_post two_chunks [lit "q"].
Proof.
  apply (session_blank_line failing_encode down_post two_chunks
           (lit "   ") [lit "q"]).
  reflexivity.
Defined.

(** * Degenerate corpora and sizes *)

(** A transcript whose content lines are all whitespace makes no chunk,
    for every [chunk_size]. *)
Lemma no_content_no_chunk (t : text) (chunk_size : Z) :
  has_content t = false -> chunk t chunk_size = [].
Proof.
  intros H. unfold has_content in H. rewrite existsb_negb in H.
  apply negb_false_iff in H.
  destruct (runs_fold chunk_size (split newline t) [] [] (Forall_nil _))
    as (runs & pending & E & C & F).
  cbn [concat app map] in C, E. change (accumulated []) with (@nil ascii) in E.
  fold (content_lines t) in C. rewrite <- C, <- blank_accumulated in H.
  destruct runs as [|r rs].
  - cbn [concat app map] in *.
    unfold chunk, chunk_transcript.
    set (st := fold_left _ _ _).
    assert (Est : st = ([], accumulated pending)) by exact E.
    clearbody st. subst st. now rewrite truthy_strip, H.
  - exfalso. apply Forall_inv in F.
    cbn [concat] in H. rewrite <- !app_assoc, accumulated_app, blank_app in H.
    apply andb_prop in H. destruct H as [H _]. congruence.
Qed.

(** X19: a corpus whose files hold only timestamps and whitespace is not
    an initialization error: when the embedder accepts the empty batch,
    [__init__] builds a system with no chunk, for every [chunk_size], and
    every question the embedder accepts is then answered with the fixed
    no-information sentence, whatever the endpoint does. *)
Theorem empty_content_corpus
    (encode : list text -> result (list vector))
    (post : text -> result response)
    (transcripts : list text) (chunk_size : Z)
    (question : text) (qe : list vector) :
  transcripts <> [] ->
  forallb (fun t => negb (has_content t)) transcripts = true ->
  encode [] = Returned [] ->
  encode [question] = Returned qe ->
  init encode transcripts chunk_size = Returned (System [] []) /\
  answer_question encode post (System [] []) question
  = Returned no_information.
Proof.
  intros N H E0 Eq.
  assert (C : create_chunks chunk_size transcripts = []).
  { unfold create_chunks. rewrite fold_transcripts. cbn [app].
    clear N. induction transcripts as [|t ts IH]; [reflexivity|].
    cbn [forallb] in H. apply andb_prop in H. destruct H as [Ht H].
    apply negb_true_iff in Ht. cbn [map concat].
    now rewrite (no_content_no_chunk t chunk_size Ht), IH. }
  split.
  - unfold init. destruct transcripts as [|t ts]; [congruence|].
    rewrite C, E0. reflexivity.
  - unfold answer_question.
    now rewrite (find_relevant_chunks_empty encode [] question 3 qe Eq).
Qed.

Lemma empty_content_corpus_witness :
  init unit_encode [lit "0:02
0:05"; lit "  "] 500 = Returned (System [] []) /\
  answer_question unit_encode down_post (System [] []) (lit "price?")
  = Returned no_information.
Proof.
  apply (empty_content_corpus unit_encode down_post
           [lit "0:02
0:05"; lit "  "] 500 (lit "price?") [[f32_one]]).
  - discriminate.
  - vm_compute. reflexivity.
  - reflexivity.
  - reflexivity.
Defined.

(** With [chunk_size <= 0] every append takes the buffer over the cap. *)
Lemma line_chunks_fold (chunk_size : Z) (ls : list text) :
  chunk_size <= 0 ->
  forall chunks cur,
    blank cur = true ->
    exists cur',
      blank cur' = true /\
      fold_left (chunk_step chunk_size) ls (chunks, cur)
      = (chunks ++ map strip
           (filter (fun l => negb (blank l))
              (filter (fun l => negb (is_timestamp l)) ls)),
         cur').
Proof.
  intros Hk. induction ls as [|l ls IH]; intros chunks cur B.
  - exists cur. cbn [fold_left filter map]. now rewrite app_nil_r.
  - cbn [fold_left filter]. destruct (is_timestamp l) eqn:T; cbn [negb].
    + rewrite timestamp_step; [apply IH; exact B | now right | exact T].
    + unfold chunk_step at 2. rewrite T.
      assert (L : (chunk_size <? len (cur ++ l ++ [space])) = true).
      { apply Z.ltb_lt. rewrite !len_app, len_cons, len_nil.
        pose proof (len_nonneg cur). pose proof (len_nonneg l). lia. }
      rewrite L, truthy_strip, !blank_app, B. cbn [filter andb].
      replace (blank [space]) with true by reflexivity.
      rewrite andb_true_r.
      destruct (blank l) eqn:Bl; cbn [negb].
      * apply IH. rewrite !blank_app, B, Bl. reflexivity.
      * destruct (IH (chunks ++ [strip (cur ++ l ++ [space])]) [] eq_refl)
          as (cur' & B' & E).
        exists cur'. split; [exact B'|].
        etransitivity; [exact E|]. cbn [map].
        rewrite <- app_assoc. cbn [app].
        rewrite strip_blank_app by exact B.
        now rewrite strip_app_space by reflexivity.
Qed.

(** X20: with [chunk_size <= 0] the chunker works line by line: the chunks
    of a transcript are its content lines that hold more than whitespace,
    each trimmed, in order. *)
Theorem chunk_line_by_line (transcript : text) (chunk_size : Z) :
  chunk_size <= 0 ->
  chunk transcript chunk_size
  = map strip (filter (fun l => negb (blank l)) (content_lines transcript)).
Proof.
  intros Hk.
  destruct (line_chunks_fold chunk_size (split newline transcript) Hk [] []
              eq_refl) as (cur & B & E).
  unfold chunk, chunk_transcript.
  set (st := fold_left _ _ _).
  assert (Est : st = ([] ++ map strip
                  (filter (fun l => negb (blank l))
                     (filter (fun l => negb (is_timestamp l))
                        (split newline transcript))), cur)) by exact E.
  clearbody st. subst st. now rewrite truthy_strip, B.
Qed.

Lemma chunk_line_by_line_witness :
  chunk (lit "0:02
 Hi there 

you") 0
  = [lit "Hi there"; lit "you"].
Proof.
  apply (chunk_line_by_line (lit "0:02
 Hi there 

you") 0).
  lia.
Defined.

(** * Lines and lengths *)

(** X21: splitting a transcript into lines loses nothing: the lines joined
    with the newline are the transcript again, and no line holds a
    newline. *)
Theorem split_join (t : text) :
  join [newline] (split newline t) = t /\
  Forall (fun l => ~ In newline l) (split newline t).
Proof.
  induction t as [|c t [IHj IHf]].
  - split; [reflexivity|]. constructor; [intros []|constructor].
  - cbn [split]. pose proof (split_not_nil newline t) as N.
    destruct (Ascii.eqb c newline) eqn:E.
    + apply Ascii.eqb_eq in E. subst c. split.
      * destruct (split newline t) as [|l ls]; [congruence|].
        change (join [newline] ([] :: l :: ls))
          with (newline :: join [newline] (l :: ls)).
        now rewrite IHj.
      * constructor; [intros []|exact IHf].
    + destruct (split newline t) as [|l ls]; [congruence|]. split.
      * rewrite <- IHj. destruct ls; reflexivity.
      * inversion IHf as [|? ? Hl Hls]; subst. constructor; [|exact Hls].
        intros [H|H]; [|contradiction].
        subst c. now rewrite Ascii.eqb_refl in E.
Qed.

Lemma join_length (cs : list text) :
  cs <> [] -> len (join [space] cs) = separated_length cs - 1.
Proof.
  induction cs as [|c cs IH]; [congruence|]. intros _.
  destruct cs as [|c' cs].
  - cbn [join separated_length fold_right]. lia.
  - change (join [space] (c :: c' :: cs))
      with (c ++ space :: join [space] (c' :: cs)).
    rewrite len_app, len_cons, IH by discriminate.
    cbn [separated_length fold_right]. lia.
Qed.

Lemma run_chunk_length (run : list text) :
  blank (accumulated run) = false ->
  len (run_chunk run) + 1 <= len (accumulated run).
Proof.
  intros B. destruct run as [|l run] using rev_ind; [discriminate|].
  unfold run_chunk. rewrite <- accumulated_snoc, !app_assoc.
  rewrite strip_app_space by reflexivity.
  pose proof (strip_length (accumulated run ++ l)) as L.
  rewrite len_app, len_cons, len_nil. lia.
Qed.

Lemma runs_length (runs : list (list text)) :
  Forall (fun run => blank (accumulated run) = false) runs ->
  separated_length (map run_chunk runs) <= len (accumulated (concat runs)).
Proof.
  induction 1 as [|run runs B F IH]; [cbn; lia|].
  cbn [map separated_length fold_right concat].
  rewrite accumulated_app, len_app.
  pose proof (run_chunk_length run B).
  fold (separated_length (map run_chunk runs)). lia.
Qed.

(** X22: chunking never grows the text: the chunks of a transcript, joined
    with the separator, are at most as long as the transcript, for every
    [chunk_size]. *)
Theorem chunks_length (transcript : text) (chunk_size : Z) :
  len (join [space] (chunk transcript chunk_size)) <= len transcript.
Proof.
  destruct (runs_fold chunk_size (split newline transcript) [] []
              (Forall_nil _)) as (runs & pending & E & C & F).
  cbn [concat app map] in C, E. change (accumulated []) with (@nil ascii) in E.
  fold (content_lines transcript) in C.
  pose proof (accumulated_filter_length (fun l => negb (is_timestamp l))
                (split newline transcript)) as L1.
  fold (content_lines transcript) in L1.
  rewrite accumulated_split_length in L1.
  rewrite <- C, accumulated_app, len_app in L1.
  pose proof (runs_length runs F) as L2.
  pose proof (len_nonneg (accumulated pending)) as L3.
  unfold chunk, chunk_transcript.
  set (st := fold_left _ _ _).
  assert (Est : st = (map run_chunk runs, accumulated pending)) by exact E.
  clearbody st. subst st.
  destruct (truthy (strip (accumulated pending))) eqn:T.
  - rewrite join_length by (destruct (map run_chunk runs); discriminate).
    assert (S : separated_length (map run_chunk runs
                                   ++ [strip (accumulated pending)])
                = separated_length (map run_chunk runs)
                  + len (run_chunk pending) + 1).
    { unfold separated_length. rewrite fold_right_app. cbn [fold_right].
      generalize (map run_chunk runs). intros cs.
      induction cs as [|c cs IH]; cbn [fold_right]; [unfold run_chunk; lia|].
      rewrite IH. lia. }
    rewrite S.
    assert (B : blank (accumulated pending) = false).
    { rewrite truthy_strip in T. now apply negb_true_iff in T. }
    pose proof (run_chunk_length pending B). lia.
  - destruct runs as [|r rs].
    + cbn [map join]. rewrite len_nil. pose proof (len_nonneg transcript). lia.
    + rewrite join_length by discriminate. lia.
Qed.
